(** * A verification model of [server.py]

    The server exposes six tool handlers over an in-memory sample store and
    a command-line bootstrap.  Each handler is embedded below as a Rocq
    function over the data the Python code manipulates:

    - Python [str] values are sequences of Unicode code points;
    - Python [int] values are unbounded integers ([Z]);
    - Python [float] values are IEEE-754 binary64 numbers, with every
      operation rounded to nearest, ties to even;
    - the module-level [SAMPLE_DATA] dictionary is an explicit store that the
      handlers receive and hand back.

    Library routines the handlers call ([str.split], [json.dumps],
    [argparse], the expression evaluator behind [eval]) are modelled after
    the behaviour of CPython 3.11. *)

From Stdlib Require Import ZArith NArith List String Ascii Bool Lia.
From Stdlib Require Import DecimalString.
From Stdlib Require DecimalPos DecimalFacts.
Import ListNotations.

Local Open Scope Z_scope.
Set Warnings "-register-all".


(* ================================================================== *)
(** ** Python strings *)

Module PyStr.

(** A [str] is a sequence of code points. *)
Definition pystr := list N.

(** ASCII literals of the source text. *)
Definition u (s : string) : pystr :=
  List.map N_of_ascii (list_ascii_of_string s).

Definition eqb (a b : pystr) : bool :=
  if list_eq_dec N.eq_dec a b then true else false.

(** [str(n)] for an [int]. *)
Definition of_Z (z : Z) : pystr := u (NilZero.string_of_int (Z.to_int z)).

(** [len(s)]. *)
Definition len (s : pystr) : Z := Z.of_nat (List.length s).

(** [str.isspace] on one code point: the characters [str.split()] treats
    as separators. *)
Definition isspace (c : N) : bool :=
  (((9 <=? c) && (c <=? 13)) || ((28 <=? c) && (c <=? 32))
   || (c =? 133) || (c =? 160) || (c =? 5760)
   || ((8192 <=? c) && (c <=? 8202))
   || (c =? 8232) || (c =? 8233) || (c =? 8239) || (c =? 8287)
   || (c =? 12288))%N.

(** [s.split()]: skip separators, collect maximal runs of other
    characters.  [cur] is the run being collected, most recent
    character first. *)
Fixpoint split_from (cur : pystr) (s : pystr) : list pystr :=
  match s with
  | [] => match cur with [] => [] | _ => [rev cur] end
  | c :: s' =>
      if isspace c
      then match cur with
           | [] => split_from [] s'
           | _ => rev cur :: split_from [] s'
           end
      else split_from (c :: cur) s'
  end.

Definition split (s : pystr) : list pystr := split_from [] s.

(** [s.replace(" ", "")]: every U+0020 is dropped. *)
Definition remove_spaces (s : pystr) : pystr :=
  filter (fun c => negb (c =? 32)%N) s.

(** [s.upper()] maps every code point through the upper-case table
    [toupper] of the interpreter, which may expand one code point into
    several; the table itself is [Unicode.toupper] below. *)
Definition upper (toupper : N -> list N) (s : pystr) : pystr :=
  flat_map toupper s.

(** The ASCII rows of that table. *)
Definition ascii_toupper (c : N) : list N :=
  if ((97 <=? c) && (c <=? 122))%N then [(c - 32)%N] else [c].

(** Zero-padded decimal of width at least [w] (as [%02d], [%04d]). *)
Definition pad_left (w : nat) (s : pystr) : pystr :=
  repeat 48%N (w - List.length s) ++ s.

End PyStr.

Import PyStr.

(* ================================================================== *)
(** ** Binary64 arithmetic *)

Module Binary64.

(** A finite number is [(-1)^neg * m * 2^e] with [0 <= m < 2^53] and
    [-1074 <= e <= 971]; zero is [m = 0] at the least exponent. *)
Inductive float :=
| Fin (neg : bool) (m : Z) (e : Z)
| Inf (neg : bool)
| NaN.

(** [2^k], and 1 for negative [k]. *)
Definition pow2 (k : Z) : Z := 2 ^ Z.max 0 k.

(** Nearest integer to [n / d] ([d > 0], [n >= 0]), ties to even. *)
Definition rne_div (n d : Z) : Z :=
  let q := n / d in
  let r := n mod d in
  if 2 * r <? d then q
  else if d <? 2 * r then q + 1
  else if Z.even q then q else q + 1.

(** [floor (log2 (n / d))] for positive [n], [d]. *)
Definition floor_log2_ratio (n d : Z) : Z :=
  let l := Z.log2 n - Z.log2 d in
  if d * pow2 l <=? n * pow2 (- l) then l else l - 1.

(** Round the non-negative rational [n / d] to binary64. *)
Definition round64 (neg : bool) (n d : Z) : float :=
  if n =? 0 then Fin neg 0 (-1074)
  else
    let e := Z.max (floor_log2_ratio n d - 52) (-1074) in
    let m := rne_div (n * pow2 (- e)) (d * pow2 e) in
    let '(m, e) := if m =? 2 ^ 53 then (2 ^ 52, e + 1) else (m, e) in
    if 971 <? e then Inf neg else Fin neg m e.

(** The exact value of a finite float as a fraction [num / den]. *)
Definition num (f : float) : Z :=
  match f with
  | Fin neg m e => (if neg then - m else m) * pow2 e
  | _ => 0
  end.

Definition den (f : float) : Z :=
  match f with
  | Fin _ _ e => pow2 (- e)
  | _ => 1
  end.

(** [a / b] on two [int]s with [b <> 0]: the quotient correctly
    rounded; a zero numerator takes the sign of the divisor. *)
Definition int_truediv (a b : Z) : float :=
  round64 (xorb (a <? 0) (b <? 0)) (Z.abs a) (Z.abs b).

(** [float(z)]. *)
Definition of_int (z : Z) : float := round64 (z <? 0) (Z.abs z) 1.

(** The value scaled by 100 and rounded to an integer, ties to even:
    the digits that the [.2f] presentation prints. *)
Definition hundredths (m e : Z) : Z :=
  rne_div (100 * m * pow2 e) (pow2 (- e)).

Definition fixed2 (h : Z) : pystr :=
  of_Z (h / 100) ++ u "." ++ pad_left 2 (of_Z (h mod 100)).

(** [format(f, ".2f")]. *)
Definition format_2f (f : float) : pystr :=
  match f with
  | Fin neg m e => (if neg then u "-" else []) ++ fixed2 (hundredths m e)
  | Inf neg => (if neg then u "-" else []) ++ u "inf"
  | NaN => u "nan"
  end.

(** *** Arithmetic on floats: the exact result, rounded once *)

Definition is_zero (f : float) : bool :=
  match f with
  | Fin _ m _ => m =? 0
  | _ => false
  end.

Definition sign (f : float) : bool :=
  match f with
  | Fin neg _ _ | Inf neg => neg
  | NaN => false
  end.

Definition fneg (f : float) : float :=
  match f with
  | Fin neg m e => Fin (negb neg) m e
  | Inf neg => Inf (negb neg)
  | NaN => NaN
  end.

Definition fabs (f : float) : float :=
  match f with
  | Fin _ m e => Fin false m e
  | Inf _ => Inf false
  | NaN => NaN
  end.

Definition fadd (x y : float) : float :=
  match x, y with
  | NaN, _ | _, NaN => NaN
  | Inf a, Inf b => if Bool.eqb a b then Inf a else NaN
  | Inf a, _ | _, Inf a => Inf a
  | Fin a _ _, Fin b _ _ =>
      let n := num x * den y + num y * den x in
      if n =? 0 then Fin (a && b) 0 (-1074)
      else round64 (n <? 0) (Z.abs n) (den x * den y)
  end.

Definition fsub (x y : float) : float := fadd x (fneg y).

Definition fmul (x y : float) : float :=
  let s := xorb (sign x) (sign y) in
  match x, y with
  | NaN, _ | _, NaN => NaN
  | Inf _, f | f, Inf _ => if is_zero f then NaN else Inf s
  | Fin _ _ _, Fin _ _ _ =>
      round64 s (Z.abs (num x * num y)) (den x * den y)
  end.

(** [x / y] for a divisor that is not zero. *)
Definition fdiv (x y : float) : float :=
  let s := xorb (sign x) (sign y) in
  match x, y with
  | NaN, _ | _, NaN => NaN
  | Inf _, Inf _ => NaN
  | Inf _, _ => Inf s
  | _, Inf _ => Fin s 0 (-1074)
  | Fin _ _ _, Fin _ _ _ =>
      round64 s (Z.abs (num x) * den y) (den x * Z.abs (num y))
  end.

(** [x < y]; false whenever a NaN is involved. *)
Definition flt (x y : float) : bool :=
  match x, y with
  | NaN, _ | _, NaN => false
  | Inf a, Inf b => a && negb b
  | Inf a, _ => a
  | _, Inf b => negb b
  | Fin _ _ _, Fin _ _ _ => num x * den y <? num y * den x
  end.

(** Nearest integer, ties to even, of a finite float. *)
Definition round_half_even (neg : bool) (m e : Z) : Z :=
  let r := rne_div (m * pow2 e) (pow2 (- e)) in
  if neg then - r else r.

(** *** [repr]: the shortest decimal that reads back as the same float *)

(** [floor (log10 (n / d))] for positive [n], [d]. *)
Definition floor_log10_ratio (n d : Z) : Z :=
  let est := (floor_log2_ratio n d * 30103) / 100000 in
  let ge k := d * 10 ^ Z.max 0 k <=? n * 10 ^ Z.max 0 (- k) in
  if ge (est + 1) then est + 1 else if ge est then est else est - 1.

(** Does the decimal [d * 10^k] read back as [Fin false m e]? *)
Definition reads_back (m e d k : Z) : bool :=
  match round64 false (d * 10 ^ Z.max 0 k) (10 ^ Z.max 0 (- k)) with
  | Fin _ m' e' => (m' =? m) && (e' =? e)
  | _ => false
  end.

(** Try [n] significant digits: the two [n]-digit decimals around the
    value, keeping the nearer of those that read back (the even one
    when they are equally near). *)
Definition candidate (m e : Z) (n : Z) : option (Z * Z) :=
  let xn := m * pow2 e in
  let xd := pow2 (- e) in
  let k := floor_log10_ratio xn xd - n + 1 in
  let sn := xn * 10 ^ Z.max 0 (- k) in
  let sd := xd * 10 ^ Z.max 0 k in
  let lo := sn / sd in
  let hi := lo + 1 in
  let lo_ok := reads_back m e lo k in
  let hi_ok := reads_back m e hi k in
  let lo_nearer :=
    (2 * sn <? (lo + hi) * sd)
    || ((2 * sn =? (lo + hi) * sd) && Z.even lo) in
  if lo_ok && (negb hi_ok || lo_nearer) then Some (lo, k)
  else if hi_ok then Some (hi, k)
  else None.

Fixpoint shortest (fuel : nat) (m e : Z) (n : Z) : Z * Z :=
  match fuel with
  | O => (m * pow2 e, 0)
  | S fuel =>
      match candidate m e n with
      | Some dk => dk
      | None => shortest fuel m e (n + 1)
      end
  end.

Fixpoint strip_zeros (fuel : nat) (d k : Z) : Z * Z :=
  match fuel with
  | O => (d, k)
  | S fuel =>
      if (d mod 10 =? 0) && negb (d =? 0)
      then strip_zeros fuel (d / 10) (k + 1)
      else (d, k)
  end.

Definition zeros (n : Z) : pystr := repeat 48%N (Z.to_nat n).

(** Layout of the digits [ds] with the decimal point after the first
    [decpt] of them: scientific notation outside [-4 < decpt <= 16]. *)
Definition layout (ds : pystr) (decpt : Z) : pystr :=
  let nd := len ds in
  if (decpt <=? -4) || (16 <? decpt) then
    let ex := decpt - 1 in
    firstn 1 ds
    ++ (if 1 <? nd then u "." ++ skipn 1 ds else [])
    ++ u "e" ++ (if ex <? 0 then u "-" else u "+")
    ++ pad_left 2 (of_Z (Z.abs ex))
  else if decpt <=? 0 then u "0." ++ zeros (- decpt) ++ ds
  else if nd <=? decpt then ds ++ zeros (decpt - nd) ++ u ".0"
  else firstn (Z.to_nat decpt) ds ++ u "." ++ skipn (Z.to_nat decpt) ds.

Definition repr (f : float) : pystr :=
  match f with
  | NaN => u "nan"
  | Inf neg => (if neg then u "-" else []) ++ u "inf"
  | Fin neg m e =>
      (if neg then u "-" else [])
      ++ (if m =? 0 then u "0.0"
          else
            let '(d, k) := shortest 17 m e 1 in
            let '(d, k) := strip_zeros 17 d k in
            let ds := of_Z d in
            layout ds (len ds + k))
  end.


End Binary64.

Import Binary64.

(* ================================================================== *)
(** ** Tool 6: [count_words] *)

(** The operand of the conditional expression
    [char_count_no_spaces / word_count if word_count > 0 else 0]:
    a [float] on the first branch, the [int] 0 on the second. *)
Inductive average :=
| AvgFloat (f : float)
| AvgInt (z : Z).

Definition average_word_length (char_count_no_spaces word_count : Z) : average :=
  if 0 <? word_count
  then AvgFloat (int_truediv char_count_no_spaces word_count)
  else AvgInt 0.

(** The [:.2f] format specifier; an [int] is converted to [float] first. *)
Definition format_average (a : average) : pystr :=
  match a with
  | AvgFloat f => format_2f f
  | AvgInt z => format_2f (of_int z)
  end.

Definition nl : pystr := [10%N].

Definition count_words (text : pystr) : pystr :=
  let words := split text in
  let word_count := Z.of_nat (List.length words) in
  let char_count := len text in
  let char_count_no_spaces := len (remove_spaces text) in
  u "Text Statistics:" ++ nl
  ++ u "- Word count: " ++ of_Z word_count ++ nl
  ++ u "- Character count (with spaces): " ++ of_Z char_count ++ nl
  ++ u "- Character count (without spaces): " ++ of_Z char_count_no_spaces ++ nl
  ++ u "- Average word length: "
  ++ format_average (average_word_length char_count_no_spaces word_count)
  ++ u " characters".


(* ================================================================== *)
(** ** [json.dumps(obj, indent=2)] *)

Module Json.

Inductive json :=
| JInt (z : Z)
| JStr (s : pystr)
| JList (items : list json)
| JDict (items : list (pystr * json)).

Definition hex_digit (n : N) : N :=
  (if n <? 10 then 48 + n else 87 + n)%N.

(** [format(n, "04x")] for [n < 65536]. *)
Definition hex4 (n : N) : pystr :=
  [hex_digit (n / 4096 mod 16); hex_digit (n / 256 mod 16);
   hex_digit (n / 16 mod 16); hex_digit (n mod 16)]%N.

Definition backslash_u (n : N) : pystr := [92; 117]%N ++ hex4 n.

(** One character under [ensure_ascii=True]: printable ASCII is kept,
    quote and backslash are escaped, a few controls have short forms
    and the rest become UTF-16 code units. *)
Definition escape_char (c : N) : pystr :=
  (if c =? 34 then [92; 34]
   else if c =? 92 then [92; 92]
   else if c =? 10 then [92; 110]
   else if c =? 13 then [92; 114]
   else if c =? 9 then [92; 116]
   else if c =? 8 then [92; 98]
   else if c =? 12 then [92; 102]
   else if (32 <=? c) && (c <=? 126) then [c]
   else if c <? 65536 then backslash_u c
   else backslash_u (55296 + ((c - 65536) / 1024) mod 1024)
        ++ backslash_u (56320 + (c - 65536) mod 1024))%N.

Definition quote (s : pystr) : pystr :=
  [34%N] ++ flat_map escape_char s ++ [34%N].

Definition newline_indent (level : nat) : pystr :=
  nl ++ repeat 32%N (2 * level).

(** Items on their own lines at [level + 1], separated by a comma, the
    closing bracket back at [level]. *)
Definition block (open close : N) (level : nat) (items : list pystr) : pystr :=
  match items with
  | [] => [open; close]
  | first :: rest =>
      [open] ++ newline_indent (S level) ++ first
      ++ flat_map (fun it => u "," ++ newline_indent (S level) ++ it) rest
      ++ newline_indent level ++ [close]
  end.

Fixpoint encode (level : nat) (v : json) : pystr :=
  match v with
  | JInt z => of_Z z
  | JStr s => quote s
  | JList items => block 91 93 level (List.map (encode (S level)) items)
  | JDict items =>
      block 123 125 level
        (List.map (fun kv => quote (fst kv) ++ u ": " ++ encode (S level) (snd kv))
                  items)
  end.

Definition dumps (v : json) : pystr := encode 0 v.

End Json.

Import Json.

(* ================================================================== *)
(** ** The sample store *)

Module User.
Record t := { id : Z; name : pystr; email : pystr }.

Definition to_json (x : t) : json :=
  JDict [(u "id", JInt (id x)); (u "name", JStr (name x));
         (u "email", JStr (email x))].
End User.

Module Task.
Record t := { id : Z; title : pystr; status : pystr; user_id : Z }.

Definition to_json (x : t) : json :=
  JDict [(u "id", JInt (id x)); (u "title", JStr (title x));
         (u "status", JStr (status x)); (u "user_id", JInt (user_id x))].
End Task.

(** The two list objects held by [SAMPLE_DATA]. *)
Record store := { users : list User.t; tasks : list Task.t }.

Definition SAMPLE_DATA : store :=
  {| users :=
       [ {| User.id := 1; User.name := u "Alice"; User.email := u "alice@example.com" |};
         {| User.id := 2; User.name := u "Bob"; User.email := u "bob@example.com" |};
         {| User.id := 3; User.name := u "Charlie"; User.email := u "charlie@example.com" |} ];
     tasks :=
       [ {| Task.id := 1; Task.title := u "Complete project";
            Task.status := u "in_progress"; Task.user_id := 1 |};
         {| Task.id := 2; Task.title := u "Review code";
            Task.status := u "pending"; Task.user_id := 2 |};
         {| Task.id := 3; Task.title := u "Write documentation";
            Task.status := u "completed"; Task.user_id := 1 |} ] |}.

(* ================================================================== *)
(** ** Tool 1: [get_current_time] *)

(** The fields of the aware [datetime] that
    [datetime.datetime.now(datetime.timezone.utc)] returns. *)
Record datetime :=
  { year : Z; month : Z; day : Z; hour : Z; minute : Z; second : Z }.

(** [strftime('%Y-%m-%d %H:%M:%S %Z')] on a UTC datetime.  The
    platform's [%Y] prints the year without padding (999 for the year
    999); the other fields are padded to two digits. *)
Definition strftime (t : datetime) : pystr :=
  of_Z (year t) ++ u "-" ++ pad_left 2 (of_Z (month t)) ++ u "-"
  ++ pad_left 2 (of_Z (day t)) ++ u " " ++ pad_left 2 (of_Z (hour t)) ++ u ":"
  ++ pad_left 2 (of_Z (minute t)) ++ u ":" ++ pad_left 2 (of_Z (second t))
  ++ u " UTC".

(** [now] is what the system clock answers during the call. *)
Definition get_current_time (now : datetime) (timezone : pystr) : pystr :=
  let current_time := now in
  u "Current time (" ++ timezone ++ u "): " ++ strftime current_time.

Definition default_timezone : pystr := u "UTC".

(* ================================================================== *)
(** ** Tools 3 and 4: [get_users], [get_tasks] *)

Definition get_users (st : store) : pystr :=
  dumps (JList (List.map User.to_json (users st))).

(** Truth value of an optional [str] argument: [None] and [""] are false. *)
Definition truthy_str (s : option pystr) : bool :=
  match s with
  | None | Some [] => false
  | Some _ => true
  end.

(** Truth value of an optional [int] argument: [None] and [0] are false. *)
Definition truthy_int (z : option Z) : bool :=
  match z with
  | None => false
  | Some z => negb (z =? 0)
  end.

Definition eq_opt_str (a : pystr) (b : option pystr) : bool :=
  match b with
  | Some b => PyStr.eqb a b
  | None => false
  end.

Definition eq_opt_int (a : Z) (b : option Z) : bool :=
  match b with
  | Some b => a =? b
  | None => false
  end.

(** The list bound to [tasks] when [json.dumps] is reached. *)
Definition select_tasks (st : store) (status : option pystr) (user_id : option Z)
  : list Task.t :=
  let tasks := tasks st in
  let tasks :=
    if truthy_str status
    then filter (fun t => eq_opt_str (Task.status t) status) tasks
    else tasks in
  let tasks :=
    if truthy_int user_id
    then filter (fun t => eq_opt_int (Task.user_id t) user_id) tasks
    else tasks in
  tasks.

Definition get_tasks (st : store) (status : option pystr) (user_id : option Z)
  : pystr :=
  dumps (JList (List.map Task.to_json (select_tasks st status user_id))).

(* ================================================================== *)
(** ** Upper-case mappings of the Unicode character database

    [str.upper] replaces every code point on its own, by the mapping
    that the interpreter's copy of the Unicode character database
    (version 14.0 in CPython 3.11) records for it; there is no
    dependence on the locale or on neighbouring characters. *)

Module Unicode.

(** Code points with a single upper-case code point, as runs
    [(first, count, step, image)]: [count] code points starting at
    [first], [step] apart; [first] is mapped to [image] and the others
    keep the same distance to their images. *)
Definition simple_upper : list (N * N * N * N) :=
  [
    (97, 26, 1, 65); (181, 1, 1, 924); (224, 23, 1, 192); (248, 7, 1, 216);
    (255, 1, 1, 376); (257, 24, 2, 256); (305, 1, 1, 73); (307, 3, 2, 306);
    (314, 8, 2, 313); (331, 23, 2, 330); (378, 3, 2, 377); (383, 1, 1, 83);
    (384, 1, 1, 579); (387, 2, 2, 386); (392, 1, 1, 391); (396, 1, 1, 395);
    (402, 1, 1, 401); (405, 1, 1, 502); (409, 1, 1, 408); (410, 1, 1, 573);
    (414, 1, 1, 544); (417, 3, 2, 416); (424, 1, 1, 423); (429, 1, 1, 428);
    (432, 1, 1, 431); (436, 2, 2, 435); (441, 1, 1, 440); (445, 1, 1, 444);
    (447, 1, 1, 503); (453, 1, 1, 452); (454, 1, 1, 452); (456, 1, 1, 455);
    (457, 1, 1, 455); (459, 1, 1, 458); (460, 1, 1, 458); (462, 8, 2, 461);
    (477, 1, 1, 398); (479, 9, 2, 478); (498, 1, 1, 497); (499, 1, 1, 497);
    (501, 1, 1, 500); (505, 20, 2, 504); (547, 9, 2, 546); (572, 1, 1, 571);
    (575, 2, 1, 11390); (578, 1, 1, 577); (583, 5, 2, 582);
    (592, 1, 1, 11375); (593, 1, 1, 11373); (594, 1, 1, 11376);
    (595, 1, 1, 385); (596, 1, 1, 390); (598, 2, 1, 393); (601, 1, 1, 399);
    (603, 1, 1, 400); (604, 1, 1, 42923); (608, 1, 1, 403);
    (609, 1, 1, 42924); (611, 1, 1, 404); (613, 1, 1, 42893);
    (614, 1, 1, 42922); (616, 1, 1, 407); (617, 1, 1, 406);
    (618, 1, 1, 42926); (619, 1, 1, 11362); (620, 1, 1, 42925);
    (623, 1, 1, 412); (625, 1, 1, 11374); (626, 1, 1, 413);
    (629, 1, 1, 415); (637, 1, 1, 11364); (640, 1, 1, 422);
    (642, 1, 1, 42949); (643, 1, 1, 425); (647, 1, 1, 42929);
    (648, 1, 1, 430); (649, 1, 1, 580); (650, 2, 1, 433); (652, 1, 1, 581);
    (658, 1, 1, 439); (669, 1, 1, 42930); (670, 1, 1, 42928);
    (837, 1, 1, 921); (881, 2, 2, 880); (887, 1, 1, 886); (891, 3, 1, 1021);
    (940, 1, 1, 902); (941, 3, 1, 904); (945, 17, 1, 913); (962, 1, 1, 931);
    (963, 9, 1, 931); (972, 1, 1, 908); (973, 2, 1, 910); (976, 1, 1, 914);
    (977, 1, 1, 920); (981, 1, 1, 934); (982, 1, 1, 928); (983, 1, 1, 975);
    (985, 12, 2, 984); (1008, 1, 1, 922); (1009, 1, 1, 929);
    (1010, 1, 1, 1017); (1011, 1, 1, 895); (1013, 1, 1, 917);
    (1016, 1, 1, 1015); (1019, 1, 1, 1018); (1072, 32, 1, 1040);
    (1104, 16, 1, 1024); (1121, 17, 2, 1120); (1163, 27, 2, 1162);
    (1218, 7, 2, 1217); (1231, 1, 1, 1216); (1233, 48, 2, 1232);
    (1377, 38, 1, 1329); (4304, 43, 1, 7312); (4349, 3, 1, 7357);
    (5112, 6, 1, 5104); (7296, 1, 1, 1042); (7297, 1, 1, 1044);
    (7298, 1, 1, 1054); (7299, 2, 1, 1057); (7301, 1, 1, 1058);
    (7302, 1, 1, 1066); (7303, 1, 1, 1122); (7304, 1, 1, 42570);
    (7545, 1, 1, 42877); (7549, 1, 1, 11363); (7566, 1, 1, 42950);
    (7681, 75, 2, 7680); (7835, 1, 1, 7776); (7841, 48, 2, 7840);
    (7936, 8, 1, 7944); (7952, 6, 1, 7960); (7968, 8, 1, 7976);
    (7984, 8, 1, 7992); (8000, 6, 1, 8008); (8017, 4, 2, 8025);
    (8032, 8, 1, 8040); (8048, 2, 1, 8122); (8050, 4, 1, 8136);
    (8054, 2, 1, 8154); (8056, 2, 1, 8184); (8058, 2, 1, 8170);
    (8060, 2, 1, 8186); (8112, 2, 1, 8120); (8126, 1, 1, 921);
    (8144, 2, 1, 8152); (8160, 2, 1, 8168); (8165, 1, 1, 8172);
    (8526, 1, 1, 8498); (8560, 16, 1, 8544); (8580, 1, 1, 8579);
    (9424, 26, 1, 9398); (11312, 48, 1, 11264); (11361, 1, 1, 11360);
    (11365, 1, 1, 570); (11366, 1, 1, 574); (11368, 3, 2, 11367);
    (11379, 1, 1, 11378); (11382, 1, 1, 11381); (11393, 50, 2, 11392);
    (11500, 2, 2, 11499); (11507, 1, 1, 11506); (11520, 38, 1, 4256);
    (11559, 1, 1, 4295); (11565, 1, 1, 4301); (42561, 23, 2, 42560);
    (42625, 14, 2, 42624); (42787, 7, 2, 42786); (42803, 31, 2, 42802);
    (42874, 2, 2, 42873); (42879, 5, 2, 42878); (42892, 1, 1, 42891);
    (42897, 2, 2, 42896); (42900, 1, 1, 42948); (42903, 10, 2, 42902);
    (42933, 8, 2, 42932); (42952, 2, 2, 42951); (42961, 1, 1, 42960);
    (42967, 2, 2, 42966); (42998, 1, 1, 42997); (43859, 1, 1, 42931);
    (43888, 80, 1, 5024); (65345, 26, 1, 65313); (66600, 40, 1, 66560);
    (66776, 36, 1, 66736); (66967, 11, 1, 66928); (66979, 15, 1, 66940);
    (66995, 7, 1, 66956); (67003, 2, 1, 66964); (68800, 51, 1, 68736);
    (71872, 32, 1, 71840); (93792, 32, 1, 93760); (125218, 34, 1, 125184) ]%N.

(** Code points whose upper case is a sequence of code points. *)
Definition special_upper : list (N * list N) :=
  [
    (223, [83; 83]); (329, [700; 78]); (496, [74; 780]);
    (912, [921; 776; 769]); (944, [933; 776; 769]); (1415, [1333; 1362]);
    (7830, [72; 817]); (7831, [84; 776]); (7832, [87; 778]);
    (7833, [89; 778]); (7834, [65; 702]); (8016, [933; 787]);
    (8018, [933; 787; 768]); (8020, [933; 787; 769]);
    (8022, [933; 787; 834]); (8064, [7944; 921]); (8065, [7945; 921]);
    (8066, [7946; 921]); (8067, [7947; 921]); (8068, [7948; 921]);
    (8069, [7949; 921]); (8070, [7950; 921]); (8071, [7951; 921]);
    (8072, [7944; 921]); (8073, [7945; 921]); (8074, [7946; 921]);
    (8075, [7947; 921]); (8076, [7948; 921]); (8077, [7949; 921]);
    (8078, [7950; 921]); (8079, [7951; 921]); (8080, [7976; 921]);
    (8081, [7977; 921]); (8082, [7978; 921]); (8083, [7979; 921]);
    (8084, [7980; 921]); (8085, [7981; 921]); (8086, [7982; 921]);
    (8087, [7983; 921]); (8088, [7976; 921]); (8089, [7977; 921]);
    (8090, [7978; 921]); (8091, [7979; 921]); (8092, [7980; 921]);
    (8093, [7981; 921]); (8094, [7982; 921]); (8095, [7983; 921]);
    (8096, [8040; 921]); (8097, [8041; 921]); (8098, [8042; 921]);
    (8099, [8043; 921]); (8100, [8044; 921]); (8101, [8045; 921]);
    (8102, [8046; 921]); (8103, [8047; 921]); (8104, [8040; 921]);
    (8105, [8041; 921]); (8106, [8042; 921]); (8107, [8043; 921]);
    (8108, [8044; 921]); (8109, [8045; 921]); (8110, [8046; 921]);
    (8111, [8047; 921]); (8114, [8122; 921]); (8115, [913; 921]);
    (8116, [902; 921]); (8118, [913; 834]); (8119, [913; 834; 921]);
    (8124, [913; 921]); (8130, [8138; 921]); (8131, [919; 921]);
    (8132, [905; 921]); (8134, [919; 834]); (8135, [919; 834; 921]);
    (8140, [919; 921]); (8146, [921; 776; 768]); (8147, [921; 776; 769]);
    (8150, [921; 834]); (8151, [921; 776; 834]); (8162, [933; 776; 768]);
    (8163, [933; 776; 769]); (8164, [929; 787]); (8166, [933; 834]);
    (8167, [933; 776; 834]); (8178, [8186; 921]); (8179, [937; 921]);
    (8180, [911; 921]); (8182, [937; 834]); (8183, [937; 834; 921]);
    (8188, [937; 921]); (64256, [70; 70]); (64257, [70; 73]);
    (64258, [70; 76]); (64259, [70; 70; 73]); (64260, [70; 70; 76]);
    (64261, [83; 84]); (64262, [83; 84]); (64275, [1348; 1350]);
    (64276, [1348; 1333]); (64277, [1348; 1339]); (64278, [1358; 1350]);
    (64279, [1348; 1341]) ]%N.

Definition in_run (c : N) (r : N * N * N * N) : bool :=
  let '(first, count, step, _) := r in
  ((first <=? c) && (c <? first + count * step)
   && ((c - first) mod step =? 0))%N.

(** The upper case of one code point. *)
Definition toupper (c : N) : list N :=
  match find (fun kv => (fst kv =? c)%N) special_upper with
  | Some (_, us) => us
  | None =>
      match find (in_run c) simple_upper with
      | Some (first, _, _, image) => [(image + c - first)%N]
      | None => [c]
      end
  end.

End Unicode.

(* ================================================================== *)
(** ** Tool 5: [echo_message] *)

Definition echo_message (toupper : N -> list N) (message : pystr) (uppercase : bool)
  : pystr :=
  if uppercase then upper toupper message else message.

(* ================================================================== *)
(** ** Command line: [argparse] and the transport bootstrap *)

Module Argparse.

Inductive argval :=
| AInt (z : Z)
| AStr (s : pystr).

Inductive arg_type := TypeInt | TypeStr.

(** One [parser.add_argument(...)] call. *)
Record argument :=
  { flag : pystr;
    type_ : option arg_type;
    choices : option (list pystr);
    default : argval;
    help : pystr }.

(** A three-way answer: a value, a rejection, or an input form this
    model does not describe. *)
Inductive conv (A : Type) :=
| Converted (a : A)
| Rejected
| NotModelled.
Arguments Converted {A} a.
Arguments Rejected {A}.
Arguments NotModelled {A}.

Definition is_digit (c : N) : bool := ((48 <=? c) && (c <=? 57))%N.
Definition is_c_space (c : N) : bool := (((9 <=? c) && (c <=? 13)) || (c =? 32))%N.

Fixpoint lstrip (s : pystr) : pystr :=
  match s with
  | c :: s' => if is_c_space c then lstrip s' else s
  | [] => []
  end.

Definition strip (s : pystr) : pystr := rev (lstrip (rev (lstrip s))).

(** Digits with single underscores between them; [acc] is the value
    read so far, [count] the digits read, [after_digit] whether the
    previous character was a digit. *)
Fixpoint digits_value (acc : Z) (count : nat) (after_digit : bool) (s : pystr)
  : option (Z * nat) :=
  match s with
  | [] => if after_digit then Some (acc, count) else None
  | c :: s' =>
      if is_digit c
      then digits_value (10 * acc + (Z.of_N c - 48)) (S count) true s'
      else if ((c =? 95)%N && after_digit)%bool
           then digits_value acc count false s'
           else None
  end.

Definition MAX_STR_DIGITS : nat := 4300.

(** [int(s)] on an ASCII string. *)
Definition int_of_str (s : pystr) : conv Z :=
  if forallb (fun c => (c <? 128)%N) s then
    let body := strip s in
    let '(neg, body) :=
      match body with
      | 45%N :: b => (true, b)
      | 43%N :: b => (false, b)
      | _ => (false, body)
      end in
    match digits_value 0 0 false body with
    | Some (v, count) =>
        if (MAX_STR_DIGITS <? count)%nat then Rejected
        else Converted (if neg then - v else v)
    | None => Rejected
    end
  else NotModelled.

Definition namespace := list (pystr * argval).

Fixpoint getattr (ns : namespace) (dest : pystr) : option argval :=
  match ns with
  | [] => None
  | (k, v) :: ns' => if PyStr.eqb k dest then Some v else getattr ns' dest
  end.

Fixpoint setattr (ns : namespace) (dest : pystr) (v : argval) : namespace :=
  match ns with
  | [] => [(dest, v)]
  | (k, w) :: ns' =>
      if PyStr.eqb k dest then (k, v) :: ns' else (k, w) :: setattr ns' dest v
  end.

(** The attribute name of a long option: the flag without its dashes. *)
Definition dest (a : argument) : pystr := skipn 2 (flag a).

Definition defaults (parser : list argument) : namespace :=
  List.map (fun a => (dest a, default a)) parser.

Definition find_flag (parser : list argument) (f : pystr) : option argument :=
  find (fun a => PyStr.eqb (flag a) f) parser.

(** Type conversion, then the [choices] test. *)
Definition convert (a : argument) (v : pystr) : conv argval :=
  let converted :=
    match type_ a with
    | Some TypeInt =>
        match int_of_str v with
        | Converted z => Converted (AInt z)
        | Rejected => Rejected
        | NotModelled => NotModelled
        end
    | Some TypeStr | None => Converted (AStr v)
    end in
  match converted, choices a with
  | Converted (AStr s), Some cs =>
      if existsb (PyStr.eqb s) cs then converted else Rejected
  | Converted (AInt _), Some _ => Rejected
  | _, _ => converted
  end.

(** Can the word after an option be taken as its value? *)
Definition takes_as_value (parser : list argument) (v : pystr) : conv unit :=
  match v with
  | [] => Converted tt
  | 45%N :: rest =>
      match rest with
      | [] => Converted tt
      | _ =>
          if forallb is_digit rest then Converted tt
          else match find_flag parser v with
               | Some _ => Rejected
               | None => NotModelled
               end
      end
  | _ => Converted tt
  end.

(** Split at the first [=]. *)
Fixpoint split_eq (s : pystr) : option (pystr * pystr) :=
  match s with
  | [] => None
  | c :: s' =>
      if (c =? 61)%N then Some ([], s')
      else match split_eq s' with
           | Some (l, r) => Some (c :: l, r)
           | None => None
           end
  end.

Inductive parsed :=
| Parsed (ns : namespace)
| Exit (code : Z)
| OtherForm.

Definition store_value (a : argument) (v : pystr) (ns : namespace)
           (k : namespace -> parsed) : parsed :=
  match convert a v with
  | Converted x => k (setattr ns (dest a) x)
  | Rejected => Exit 2
  | NotModelled => OtherForm
  end.

(** [extras] records whether a word that belongs to no option was
    seen; such words are reported once the whole line is read. *)
Fixpoint parse_loop (fuel : nat) (parser : list argument) (ns : namespace)
         (extras : bool) (argv : list pystr) : parsed :=
  match fuel with
  | O => OtherForm
  | S fuel =>
      match argv with
      | [] => if extras then Exit 2 else Parsed ns
      | a :: rest =>
          match find_flag parser a with
          | Some arg =>
              match rest with
              | [] => Exit 2
              | v :: rest' =>
                  match takes_as_value parser v with
                  | Converted _ =>
                      store_value arg v ns
                        (fun ns' => parse_loop fuel parser ns' extras rest')
                  | Rejected => Exit 2
                  | NotModelled => OtherForm
                  end
              end
          | None =>
              if (PyStr.eqb a (u "-h") || PyStr.eqb a (u "--help"))%bool
              then Exit 0
              else
                match a with
                | 45%N :: _ :: _ =>
                    match split_eq a with
                    | Some (f, v) =>
                        match find_flag parser f with
                        | Some arg =>
                            store_value arg v ns
                              (fun ns' => parse_loop fuel parser ns' extras rest)
                        | None => OtherForm
                        end
                    | None => OtherForm
                    end
                | [45%N] => OtherForm
                | _ => parse_loop fuel parser ns true rest
                end
          end
      end
  end.

(** Before acting on any word, [parse_args] decides for every word of
    the line whether it is an option, and stops with a usage error if
    one of them is an ambiguous abbreviation.  The words described
    here: the options as declared, with or without [=value], the help
    options, words that do not start with a dash, and a dash followed
    by digits only. *)
Definition classified (parser : list argument) (w : pystr) : bool :=
  match w with
  | 45%N :: rest =>
      match rest with
      | [] => true
      | _ :: _ =>
          match find_flag parser w with
          | Some _ => true
          | None =>
              PyStr.eqb w (u "-h") || PyStr.eqb w (u "--help")
              || forallb is_digit rest
              || match split_eq w with
                 | Some (f, _) =>
                     match find_flag parser f with
                     | Some _ => true
                     | None => false
                     end
                 | None => false
                 end
          end
      end
  | _ => true
  end.

Definition parse_args (parser : list argument) (argv : list pystr) : parsed :=
  if forallb (classified parser) argv
  then parse_loop (S (List.length argv)) parser (defaults parser) false argv
  else OtherForm.

End Argparse.

Import Argparse.

(** The three [parser.add_argument] calls of the entry point. *)
Definition parser : list argument :=
  [ {| flag := u "--transport";
       type_ := None;
       choices := Some [u "stdio"; u "sse"; u "streamable-http"];
       default := AStr (u "streamable-http");
       help := u "Transport type to use (default: stdio)" |};
    {| flag := u "--port";
       type_ := Some TypeInt;
       choices := None;
       default := AInt 3000;
       help := u "Port to run the server on (only used with sse transport, default: 8000)" |};
    {| flag := u "--host";
       type_ := Some TypeStr;
       choices := None;
       default := AStr (u "0.0.0.0");
       help := u "Host to use" |} ].

(** How the process continues after the command line is read. *)
Inductive startup :=
| Run (transport : pystr) (kwargs : list (pystr * argval))
| NoRun
| Exited (code : Z)
| UnknownStartup.

Definition arg_is (ns : namespace) (name : pystr) (s : pystr) : bool :=
  match getattr ns name with
  | Some (AStr v) => PyStr.eqb v s
  | _ => false
  end.

Definition kwargs_of (ns : namespace) (names : list pystr) : list (pystr * argval) :=
  flat_map (fun n => match getattr ns n with
                     | Some v => [(n, v)]
                     | None => []
                     end) names.

(** The [if]/[elif] chain that hands control to [mcp.run]. *)
Definition run_server (args : namespace) : startup :=
  if arg_is args (u "transport") (u "stdio") then
    Run (u "stdio") []
  else if arg_is args (u "transport") (u "sse") then
    Run (u "sse") (kwargs_of args [u "port"; u "host"])
  else if arg_is args (u "transport") (u "streamable-http") then
    Run (u "streamable-http") (kwargs_of args [u "port"; u "host"])
  else NoRun.

Definition main (argv : list pystr) : startup :=
  match parse_args parser argv with
  | Parsed args => run_server args
  | Exit code => Exited code
  | OtherForm => UnknownStartup
  end.

(* ================================================================== *)
(** ** The expression language behind [eval]

    [calculate] hands its argument to the interpreter's own [eval].  The
    part of the expression language described here: decimal integer
    literals, quoted strings without escapes, names, attribute access,
    calls, subscripts, unary [+ -], binary [+ - * /], [or] and [and],
    separated by spaces.  Inputs that use anything else are reported as
    not modelled, never as errors. *)

Module PyExpr.

Inductive token :=
| TInt (n : Z)
| TName (x : pystr)
| TStr (s : pystr)
| TPlus | TMinus | TStar | TSlash
| TLParen | TRParen | TLBracket | TRBracket
| TComma | TDot | TOr | TAnd.

Inductive lexed :=
| Tokens (ts : list token)
| LexError (msg : pystr)
| LexOther.

Inductive mode :=
| MDefault
| MNumber (acc : pystr)
| MName (acc : pystr)
| MString (q : N) (acc : pystr).

Definition is_letter (c : N) : bool :=
  (((65 <=? c) && (c <=? 90)) || ((97 <=? c) && (c <=? 122)) || (c =? 95))%N.

Definition is_name_char (c : N) : bool := is_letter c || is_digit c.

Definition is_quote (c : N) : bool := ((c =? 39) || (c =? 34))%N.

(** Keywords other than [or] and [and], and the compile-time constant
    [__debug__]: words that are not plain names. *)
Definition reserved : list pystr :=
  List.map u
    [ "False"; "None"; "True"; "as"; "assert"; "async"; "await"; "break";
      "class"; "continue"; "def"; "del"; "elif"; "else"; "except";
      "finally"; "for"; "from"; "global"; "if"; "import"; "in"; "is";
      "lambda"; "nonlocal"; "not"; "pass"; "raise"; "return"; "try";
      "while"; "with"; "yield"; "__debug__" ]%string.

Definition located (msg : pystr) : pystr := msg ++ u " (<string>, line 1)".

Definition leading_zeros : pystr :=
  located (u "leading zeros in decimal integer literals are not permitted; use an 0o prefix for octal integers").

Definition unterminated : pystr :=
  located (u "unterminated string literal (detected at line 1)").

Definition unmatched (c : N) : pystr :=
  located (u "unmatched '" ++ [c] ++ u "'").

Definition mismatched (c o : N) : pystr :=
  located (u "closing parenthesis '" ++ [c]
           ++ u "' does not match opening parenthesis '" ++ [o] ++ u "'").

(** The tokenizer keeps at most [MAXLEVEL] brackets open. *)
Definition MAXLEVEL : nat := 200.

Definition with_token (t : token) (rest : lexed) : lexed :=
  match rest with
  | Tokens ts => Tokens (t :: ts)
  | _ => rest
  end.

(** The first error wins, unless something later is not modelled. *)
Definition with_error (msg : pystr) (rest : lexed) : lexed :=
  match rest with
  | LexOther => LexOther
  | _ => LexError msg
  end.

Definition digits_to_Z (ds : pystr) : Z :=
  fold_left (fun acc c => 10 * acc + (Z.of_N c - 48)) ds 0.

Definition end_number (ds : pystr) (rest : lexed) : lexed :=
  if (MAX_STR_DIGITS <? List.length ds)%nat then LexOther
  else
    match ds with
    | 48%N :: _ :: _ =>
        if forallb (fun c => (c =? 48)%N) ds
        then with_token (TInt 0) rest
        else with_error leading_zeros rest
    | _ => with_token (TInt (digits_to_Z ds)) rest
    end.

Definition end_name (x : pystr) (rest : lexed) : lexed :=
  if PyStr.eqb x (u "or") then with_token TOr rest
  else if PyStr.eqb x (u "and") then with_token TAnd rest
  else if existsb (PyStr.eqb x) reserved then LexOther
  else with_token (TName x) rest.

Definition closer_of (o : N) : N := if (o =? 40)%N then 41%N else 93%N.

(** One pass over the characters; [stack] holds the brackets that are
    open, innermost first.  A bracket that would be the 201st open one
    is refused by the tokenizer ("too many nested parentheses"), unless
    the parser has run out of stack before the tokenizer gets there;
    and which diagnostic an input with a bracket left open receives
    depends on how far the parser looked ahead.  Inputs of both kinds
    are left out. *)
Fixpoint lex (m : mode) (stack : list N) (s : pystr) : lexed :=
  match s with
  | [] =>
      let at_end :=
        match stack with
        | [] => Tokens []
        | _ :: _ => LexOther
        end in
      match m with
      | MDefault => at_end
      | MNumber acc => end_number (rev acc) at_end
      | MName acc => end_name (rev acc) at_end
      | MString _ _ => LexError unterminated
      end
  | c :: s' =>
      let start (_ : unit) : lexed :=
        if (c =? 32)%N then lex MDefault stack s'
        else if is_digit c then lex (MNumber [c]) stack s'
        else if is_letter c then lex (MName [c]) stack s'
        else if is_quote c then lex (MString c []) stack s'
        else if (c =? 43)%N then with_token TPlus (lex MDefault stack s')
        else if (c =? 45)%N then with_token TMinus (lex MDefault stack s')
        else if (c =? 44)%N then with_token TComma (lex MDefault stack s')
        else if (c =? 42)%N then
          match s' with
          | 42%N :: _ => LexOther
          | _ => with_token TStar (lex MDefault stack s')
          end
        else if (c =? 47)%N then
          match s' with
          | 47%N :: _ => LexOther
          | _ => with_token TSlash (lex MDefault stack s')
          end
        else if (c =? 46)%N then
          match s' with
          | d :: _ =>
              if (is_digit d || (d =? 46)%N)%bool then LexOther
              else with_token TDot (lex MDefault stack s')
          | [] => with_token TDot (lex MDefault stack s')
          end
        else if ((c =? 40) || (c =? 91))%N then
          if (MAXLEVEL <=? List.length stack)%nat then LexOther
          else with_token (if (c =? 40)%N then TLParen else TLBracket)
                          (lex MDefault (c :: stack) s')
        else if ((c =? 41) || (c =? 93))%N then
          match stack with
          | [] => with_error (unmatched c) (lex MDefault [] s')
          | o :: stack' =>
              if (closer_of o =? c)%N
              then with_token (if (c =? 41)%N then TRParen else TRBracket)
                              (lex MDefault stack' s')
              else with_error (mismatched c o) (lex MDefault stack' s')
          end
        else LexOther in
      match m with
      | MDefault => start tt
      | MNumber acc =>
          if is_digit c then lex (MNumber (c :: acc)) stack s'
          else if (is_letter c || (c =? 46)%N)%bool then LexOther
          else end_number (rev acc) (start tt)
      | MName acc =>
          if is_name_char c then lex (MName (c :: acc)) stack s'
          else if is_quote c then LexOther
          else end_name (rev acc) (start tt)
      | MString q acc =>
          if (c =? q)%N then
            match acc, s' with
            | [], d :: _ =>
                if (d =? q)%N then LexOther
                else with_token (TStr []) (lex MDefault stack s')
            | _, _ => with_token (TStr (rev acc)) (lex MDefault stack s')
            end
          else if ((c <? 32) || (c =? 92) || (126 <? c))%N then LexOther
          else lex (MString q (c :: acc)) stack s'
      end
  end.

Definition tokenize (s : pystr) : lexed := lex MDefault [] s.

(** *** Syntax trees *)

Inductive unop := UPlus | UMinus.
Inductive binop := Add | Sub | Mul | Div.
Inductive boolop := Or | And.

Inductive expr :=
| EInt (n : Z)
| EStr (s : pystr)
| EName (x : pystr)
| EAttr (e : expr) (a : pystr)
| ECall (f : expr) (args : list expr)
| ESubscript (e : expr) (i : expr)
| EUnary (op : unop) (e : expr)
| EBin (op : binop) (l r : expr)
| EBool (op : boolop) (l r : expr).

Definition parse_result := option (expr * list token).

(** Recursive descent, one function per precedence level; [fuel]
    bounds the depth of the descent. *)
Fixpoint p_or (fuel : nat) (ts : list token) : parse_result :=
  match fuel with
  | O => None
  | S fuel =>
      match p_and fuel ts with
      | Some (l, ts') => p_or_rest fuel l ts'
      | None => None
      end
  end
with p_or_rest (fuel : nat) (l : expr) (ts : list token) : parse_result :=
  match fuel with
  | O => None
  | S fuel =>
      match ts with
      | TOr :: ts' =>
          match p_and fuel ts' with
          | Some (r, ts'') => p_or_rest fuel (EBool Or l r) ts''
          | None => None
          end
      | _ => Some (l, ts)
      end
  end
with p_and (fuel : nat) (ts : list token) : parse_result :=
  match fuel with
  | O => None
  | S fuel =>
      match p_sum fuel ts with
      | Some (l, ts') => p_and_rest fuel l ts'
      | None => None
      end
  end
with p_and_rest (fuel : nat) (l : expr) (ts : list token) : parse_result :=
  match fuel with
  | O => None
  | S fuel =>
      match ts with
      | TAnd :: ts' =>
          match p_sum fuel ts' with
          | Some (r, ts'') => p_and_rest fuel (EBool And l r) ts''
          | None => None
          end
      | _ => Some (l, ts)
      end
  end
with p_sum (fuel : nat) (ts : list token) : parse_result :=
  match fuel with
  | O => None
  | S fuel =>
      match p_term fuel ts with
      | Some (l, ts') => p_sum_rest fuel l ts'
      | None => None
      end
  end
with p_sum_rest (fuel : nat) (l : expr) (ts : list token) : parse_result :=
  match fuel with
  | O => None
  | S fuel =>
      match ts with
      | TPlus :: ts' =>
          match p_term fuel ts' with
          | Some (r, ts'') => p_sum_rest fuel (EBin Add l r) ts''
          | None => None
          end
      | TMinus :: ts' =>
          match p_term fuel ts' with
          | Some (r, ts'') => p_sum_rest fuel (EBin Sub l r) ts''
          | None => None
          end
      | _ => Some (l, ts)
      end
  end
with p_term (fuel : nat) (ts : list token) : parse_result :=
  match fuel with
  | O => None
  | S fuel =>
      match p_factor fuel ts with
      | Some (l, ts') => p_term_rest fuel l ts'
      | None => None
      end
  end
with p_term_rest (fuel : nat) (l : expr) (ts : list token) : parse_result :=
  match fuel with
  | O => None
  | S fuel =>
      match ts with
      | TStar :: ts' =>
          match p_factor fuel ts' with
          | Some (r, ts'') => p_term_rest fuel (EBin Mul l r) ts''
          | None => None
          end
      | TSlash :: ts' =>
          match p_factor fuel ts' with
          | Some (r, ts'') => p_term_rest fuel (EBin Div l r) ts''
          | None => None
          end
      | _ => Some (l, ts)
      end
  end
with p_factor (fuel : nat) (ts : list token) : parse_result :=
  match fuel with
  | O => None
  | S fuel =>
      match ts with
      | TPlus :: ts' =>
          match p_factor fuel ts' with
          | Some (e, ts'') => Some (EUnary UPlus e, ts'')
          | None => None
          end
      | TMinus :: ts' =>
          match p_factor fuel ts' with
          | Some (e, ts'') => Some (EUnary UMinus e, ts'')
          | None => None
          end
      | TInt n :: ts' => p_trailers fuel (EInt n) ts'
      | TStr s :: ts' => p_trailers fuel (EStr s) ts'
      | TName x :: ts' => p_trailers fuel (EName x) ts'
      | TLParen :: ts' =>
          match p_or fuel ts' with
          | Some (e, TRParen :: ts'') => p_trailers fuel e ts''
          | _ => None
          end
      | _ => None
      end
  end
with p_trailers (fuel : nat) (e : expr) (ts : list token) : parse_result :=
  match fuel with
  | O => None
  | S fuel =>
      match ts with
      | TDot :: TName a :: ts' => p_trailers fuel (EAttr e a) ts'
      | TLParen :: TRParen :: ts' => p_trailers fuel (ECall e []) ts'
      | TLParen :: ts' =>
          match p_args fuel ts' with
          | Some (args, ts'') => p_trailers fuel (ECall e args) ts''
          | None => None
          end
      | TLBracket :: ts' =>
          match p_or fuel ts' with
          | Some (i, TRBracket :: ts'') => p_trailers fuel (ESubscript e i) ts''
          | _ => None
          end
      | _ => Some (e, ts)
      end
  end
with p_args (fuel : nat) (ts : list token) : option (list expr * list token) :=
  match fuel with
  | O => None
  | S fuel =>
      match p_or fuel ts with
      | Some (a, TRParen :: ts') => Some ([a], ts')
      | Some (a, TComma :: TRParen :: ts') => Some ([a], ts')
      | Some (a, TComma :: ts') =>
          match p_args fuel ts' with
          | Some (rest, ts'') => Some (a :: rest, ts'')
          | None => None
          end
      | _ => None
      end
  end.

Definition is_bracket_or_comma (t : token) : bool :=
  match t with
  | TLParen | TRParen | TLBracket | TRBracket | TComma => true
  | _ => false
  end.

Fixpoint adjacent_strings (ts : list token) : bool :=
  match ts with
  | TStr _ :: ((TStr _ :: _) as ts') => true
  | _ :: ts' => adjacent_strings ts'
  | [] => false
  end.

(** Token sequences whose only well-formed readings are those of the
    grammar above: no brackets, no commas, no juxtaposed strings. *)
Definition plain (ts : list token) : bool :=
  negb (existsb is_bracket_or_comma ts) && negb (adjacent_strings ts).

Inductive parsed :=
| Ok (e : expr)
| SyntaxErr (msg : pystr)
| Unparsed.

Definition invalid_syntax (ts : list token) : pystr :=
  u "invalid syntax (<string>, line "
  ++ (match ts with [] => u "0" | _ => u "1" end) ++ u ")".

(** Nesting depth of a tree.  Parentheses leave no node behind; every
    operator, call, attribute access and subscript adds a level. *)
Fixpoint depth (e : expr) : nat :=
  match e with
  | EInt _ | EStr _ | EName _ => O
  | EAttr e _ => S (depth e)
  | ECall f args =>
      S (fold_right (fun a d => Nat.max (depth a) d) (depth f) args)
  | ESubscript e i => S (Nat.max (depth e) (depth i))
  | EUnary _ e => S (depth e)
  | EBin _ l r => S (Nat.max (depth l) (depth r))
  | EBool _ l r => S (Nat.max (depth l) (depth r))
  end.

(** The compiler walks the tree recursively and gives up with a
    [RecursionError] when it runs out of stack: at about 3000 levels
    in a fresh interpreter, sooner the deeper the call that reached
    [eval].  Trees of at most [MAX_DEPTH] levels are compiled whatever
    the caller; deeper ones are left out. *)
Definition MAX_DEPTH : nat := 200.

(** The names of the two Python 2 statements: a token run that is not
    an expression and holds one of them may be reported as a call
    without parentheses instead of as invalid syntax. *)
Definition is_legacy_statement (t : token) : bool :=
  match t with
  | TName x => PyStr.eqb x (u "print") || PyStr.eqb x (u "exec")
  | _ => false
  end.

(** An input that is not an expression makes the parser go over it
    a second time to find the diagnostic, and on a long input it runs
    out of stack first (a [MemoryError], from about 1500 tokens on).
    Diagnostics are described for inputs of at most [MAX_REJECTED]
    characters. *)
Definition MAX_REJECTED : nat := 200.

Definition parse_tokens (ts : list token) : parsed :=
  match p_or (8 * S (List.length ts)) ts with
  | Some (e, []) => if (depth e <=? MAX_DEPTH)%nat then Ok e else Unparsed
  | _ =>
      if (List.length ts <=? MAX_REJECTED)%nat
         && plain ts && negb (existsb is_legacy_statement ts)
      then SyntaxErr (invalid_syntax ts)
      else Unparsed
  end.

Definition parse (s : pystr) : parsed :=
  match tokenize s with
  | Tokens ts => parse_tokens ts
  | LexError msg =>
      if (List.length s <=? MAX_REJECTED)%nat then SyntaxErr msg else Unparsed
  | LexOther => Unparsed
  end.

End PyExpr.

Import PyExpr.

(* ================================================================== *)
(** ** Evaluation *)

Module PyEval.

Inductive builtin := Abs | Round | Min | Max | Import | SysExit.
Inductive module := Builtins | Sys | Main.
Inductive table := Users | Tasks.

(** The objects an expression of the modelled part can reach.
    [VSampleData] is the dictionary bound to [SAMPLE_DATA], [VTable]
    one of the two list objects it holds (a reference, not a copy),
    [VClear] the bound method [list.clear] of such a list. *)
Inductive value :=
| VNone
| VInt (z : Z)
| VFloat (f : float)
| VStr (s : pystr)
| VEmptyDict
| VBuiltin (b : builtin)
| VModule (m : module)
| VSampleData
| VTable (t : table)
| VClear (t : table).

Inductive exn_class :=
| SyntaxError | NameError | TypeError | ZeroDivisionError
| OverflowError | ValueError
| SystemExit.

(** [issubclass(c, Exception)]: [SystemExit] derives from
    [BaseException] only. *)
Definition is_Exception (c : exn_class) : bool :=
  match c with
  | SystemExit => false
  | _ => true
  end.

(** An exception object: its class and [str(e)]. *)
Record exn := { cls : exn_class; msg : pystr }.

(** What evaluating does: return a value, raise, or leave the modelled
    part of the language.  The store is threaded through. *)
Inductive outcome (A : Type) :=
| Returns (a : A) (st : store)
| Raises (e : exn) (st : store)
| Beyond.
Arguments Returns {A} a st.
Arguments Raises {A} e st.
Arguments Beyond {A}.

(** A step that does not touch the store. *)
Inductive pure (A : Type) :=
| Val (a : A)
| Err (e : exn)
| Unknown.
Arguments Val {A} a.
Arguments Err {A} e.
Arguments Unknown {A}.

Definition lift {A} (p : pure A) (st : store) : outcome A :=
  match p with
  | Val a => Returns a st
  | Err e => Raises e st
  | Unknown => Beyond
  end.

Definition bind {A B} (o : outcome A) (k : A -> store -> outcome B) : outcome B :=
  match o with
  | Returns a st => k a st
  | Raises e st => Raises e st
  | Beyond => Beyond
  end.

Definition raise {A} (c : exn_class) (m : string) : pure A :=
  Err {| cls := c; msg := u m |}.

(** The dictionary passed to [eval] as its globals. *)
Definition allowed_names : list (pystr * value) :=
  [ (u "__builtins__", VEmptyDict);
    (u "abs", VBuiltin Abs);
    (u "round", VBuiltin Round);
    (u "min", VBuiltin Min);
    (u "max", VBuiltin Max) ].

Fixpoint lookup (ns : list (pystr * value)) (x : pystr) : option value :=
  match ns with
  | [] => None
  | (k, v) :: ns' => if PyStr.eqb k x then Some v else lookup ns' x
  end.

Definition load_name (x : pystr) : pure value :=
  match lookup allowed_names x with
  | Some v => Val v
  | None =>
      Err {| cls := NameError; msg := u "name '" ++ x ++ u "' is not defined" |}
  end.

Definition builtin_name (b : builtin) : pystr :=
  match b with
  | Abs => u "abs" | Round => u "round" | Min => u "min" | Max => u "max"
  | Import => u "__import__" | SysExit => u "exit"
  end.

(** The module a built-in function belongs to ([f.__self__]). *)
Definition home (b : builtin) : module :=
  match b with
  | SysExit => Sys
  | _ => Builtins
  end.

Definition getattr (v : value) (a : pystr) : pure value :=
  match v with
  | VBuiltin b =>
      if PyStr.eqb a (u "__self__") then Val (VModule (home b)) else Unknown
  | VModule Builtins =>
      if PyStr.eqb a (u "abs") then Val (VBuiltin Abs)
      else if PyStr.eqb a (u "round") then Val (VBuiltin Round)
      else if PyStr.eqb a (u "min") then Val (VBuiltin Min)
      else if PyStr.eqb a (u "max") then Val (VBuiltin Max)
      else if PyStr.eqb a (u "__import__") then Val (VBuiltin Import)
      else Unknown
  | VModule Sys =>
      if PyStr.eqb a (u "exit") then Val (VBuiltin SysExit) else Unknown
  | VModule Main =>
      if PyStr.eqb a (u "SAMPLE_DATA") then Val VSampleData else Unknown
  | VTable t =>
      if PyStr.eqb a (u "clear") then Val (VClear t) else Unknown
  | _ => Unknown
  end.

Definition getitem (v i : value) : pure value :=
  match v, i with
  | VSampleData, VStr k =>
      if PyStr.eqb k (u "users") then Val (VTable Users)
      else if PyStr.eqb k (u "tasks") then Val (VTable Tasks)
      else Unknown
  | _, _ => Unknown
  end.

Definition is_number (v : value) : bool :=
  match v with
  | VInt _ | VFloat _ => true
  | _ => false
  end.

(** [float(z)], which fails on integers beyond the float range. *)
Definition to_float (v : value) : pure float :=
  match v with
  | VInt z =>
      match of_int z with
      | Inf _ => raise OverflowError "int too large to convert to float"
      | f => Val f
      end
  | VFloat f => Val f
  | _ => Unknown
  end.

Definition float_op (op : binop) (x y : float) : pure value :=
  match op with
  | Add => Val (VFloat (fadd x y))
  | Sub => Val (VFloat (fsub x y))
  | Mul => Val (VFloat (fmul x y))
  | Div =>
      if is_zero y then raise ZeroDivisionError "float division by zero"
      else Val (VFloat (fdiv x y))
  end.

Definition binary (op : binop) (a b : value) : pure value :=
  match a, b with
  | VInt x, VInt y =>
      match op with
      | Add => Val (VInt (x + y))
      | Sub => Val (VInt (x - y))
      | Mul => Val (VInt (x * y))
      | Div =>
          if y =? 0 then raise ZeroDivisionError "division by zero"
          else match int_truediv x y with
               | Inf _ =>
                   raise OverflowError "integer division result too large for a float"
               | f => Val (VFloat f)
               end
      end
  | _, _ =>
      if is_number a && is_number b then
        match to_float a, to_float b with
        | Val x, Val y => float_op op x y
        | Err e, _ => Err e
        | _, Err e => Err e
        | _, _ => Unknown
        end
      else Unknown
  end.

Definition unary (op : unop) (a : value) : pure value :=
  match op, a with
  | UPlus, (VInt _ | VFloat _) => Val a
  | UMinus, VInt x => Val (VInt (- x))
  | UMinus, VFloat f => Val (VFloat (fneg f))
  | _, _ => Unknown
  end.

(** Truth value, as [or] and [and] test it. *)
Definition truthy (st : store) (v : value) : bool :=
  match v with
  | VNone | VEmptyDict => false
  | VInt z => negb (z =? 0)
  | VFloat f => negb (is_zero f)
  | VStr s => match s with [] => false | _ => true end
  | VTable Users => match users st with [] => false | _ => true end
  | VTable Tasks => match tasks st with [] => false | _ => true end
  | VBuiltin _ | VModule _ | VSampleData | VClear _ => true
  end.

(** A number as an unrounded binary fraction, for exact comparison. *)
Definition exact (v : value) : float :=
  match v with
  | VInt z => Fin (z <? 0) (Z.abs z) 0
  | VFloat f => f
  | _ => NaN
  end.

Definition less (a b : value) : bool := flt (exact a) (exact b).

(** [min] keeps the first smallest item, [max] the first largest. *)
Definition pick (b : builtin) (best item : value) : value :=
  match b with
  | Max => if less best item then item else best
  | _ => if less item best then item else best
  end.

Definition type_name (v : value) : pystr :=
  match v with
  | VInt _ => u "int"
  | _ => u "float"
  end.

Definition extremum (b : builtin) (args : list value) : pure value :=
  match args with
  | [] =>
      Err {| cls := TypeError;
             msg := builtin_name b ++ u " expected at least 1 argument, got 0" |}
  | [v] =>
      if is_number v
      then Err {| cls := TypeError;
                  msg := u "'" ++ type_name v ++ u "' object is not iterable" |}
      else Unknown
  | first :: rest =>
      if forallb is_number args then Val (fold_left (pick b) rest first)
      else Unknown
  end.

Definition call_abs (args : list value) : pure value :=
  match args with
  | [VInt z] => Val (VInt (Z.abs z))
  | [VFloat f] => Val (VFloat (fabs f))
  | [_] => Unknown
  | _ =>
      Err {| cls := TypeError;
             msg := u "abs() takes exactly one argument ("
                    ++ of_Z (len (List.map (fun _ => 0%N) args)) ++ u " given)" |}
  end.

Definition call_round (args : list value) : pure value :=
  match args with
  | [] => raise TypeError "round() missing required argument 'number' (pos 1)"
  | [VInt z] => Val (VInt z)
  | [VFloat (Fin neg m e)] => Val (VInt (round_half_even neg m e))
  | [VFloat (Inf _)] =>
      raise OverflowError "cannot convert float infinity to integer"
  | [VFloat NaN] => raise ValueError "cannot convert float NaN to integer"
  | _ => Unknown
  end.

Definition call_import (args : list value) : pure value :=
  match args with
  | [VStr name] =>
      if PyStr.eqb name (u "builtins") then Val (VModule Builtins)
      else if PyStr.eqb name (u "sys") then Val (VModule Sys)
      else if PyStr.eqb name (u "__main__") then Val (VModule Main)
      else Unknown
  | _ => Unknown
  end.

Definition call_exit (args : list value) : pure value :=
  match args with
  | [] => Err {| cls := SystemExit; msg := [] |}
  | [VInt z] => Err {| cls := SystemExit; msg := of_Z z |}
  | _ => Unknown
  end.

Definition clear (t : table) (st : store) : store :=
  match t with
  | Users => {| users := []; tasks := tasks st |}
  | Tasks => {| users := users st; tasks := [] |}
  end.

Definition call (f : value) (args : list value) (st : store) : outcome value :=
  match f with
  | VBuiltin Abs => lift (call_abs args) st
  | VBuiltin Round => lift (call_round args) st
  | VBuiltin Min => lift (extremum Min args) st
  | VBuiltin Max => lift (extremum Max args) st
  | VBuiltin Import => lift (call_import args) st
  | VBuiltin SysExit => lift (call_exit args) st
  | VClear t =>
      match args with
      | [] => Returns VNone (clear t st)
      | _ => Beyond
      end
  | _ => Beyond
  end.

(** Operands are evaluated left to right; [or] and [and] evaluate their
    right operand only when the left one does not decide. *)
Fixpoint eval (e : expr) (st : store) : outcome value :=
  match e with
  | EInt n => Returns (VInt n) st
  | EStr s => Returns (VStr s) st
  | EName x => lift (load_name x) st
  | EAttr e a => bind (eval e st) (fun v st => lift (getattr v a) st)
  | ESubscript e i =>
      bind (eval e st) (fun v st =>
      bind (eval i st) (fun k st => lift (getitem v k) st))
  | ECall f args =>
      bind (eval f st) (fun fv st =>
      bind ((fix eval_args (args : list expr) (st : store) : outcome (list value) :=
               match args with
               | [] => Returns [] st
               | a :: rest =>
                   bind (eval a st) (fun v st =>
                   bind (eval_args rest st) (fun vs st => Returns (v :: vs) st))
               end) args st)
           (fun vs st => call fv vs st))
  | EUnary op e => bind (eval e st) (fun v st => lift (unary op v) st)
  | EBin op l r =>
      bind (eval l st) (fun a st =>
      bind (eval r st) (fun b st => lift (binary op a b) st))
  | EBool Or l r =>
      bind (eval l st) (fun a st => if truthy st a then Returns a st else eval r st)
  | EBool And l r =>
      bind (eval l st) (fun a st => if truthy st a then eval r st else Returns a st)
  end.

(** The operands of a call, in order. *)
Fixpoint eval_list (args : list expr) (st : store) : outcome (list value) :=
  match args with
  | [] => Returns [] st
  | a :: rest =>
      bind (eval a st) (fun v st =>
      bind (eval_list rest st) (fun vs st => Returns (v :: vs) st))
  end.

(** [eval(expression, allowed_names)]: compile, then evaluate. *)
Definition py_eval (expression : pystr) (st : store) : outcome value :=
  match parse expression with
  | Ok e => eval e st
  | SyntaxErr m => Raises {| cls := SyntaxError; msg := m |} st
  | Unparsed => Beyond
  end.

Definition digit_count (z : Z) : nat := List.length (of_Z (Z.abs z)).

Definition module_name (m : module) : pystr :=
  match m with
  | Builtins => u "builtins" | Sys => u "sys" | Main => u "__main__"
  end.

(** [str(v)], as the f-string applies it to [result]. *)
Definition py_str (v : value) : pure pystr :=
  match v with
  | VNone => Val (u "None")
  | VInt z =>
      if (MAX_STR_DIGITS <? digit_count z)%nat
      then raise ValueError
             "Exceeds the limit (4300 digits) for integer string conversion; use sys.set_int_max_str_digits() to increase the limit"
      else Val (of_Z z)
  | VFloat f => Val (repr f)
  | VStr s => Val s
  | VEmptyDict => Val (u "{}")
  | VBuiltin b => Val (u "<built-in function " ++ builtin_name b ++ u ">")
  | VModule Main => Unknown
  | VModule m => Val (u "<module '" ++ module_name m ++ u "' (built-in)>")
  | VSampleData | VTable _ | VClear _ => Unknown
  end.

End PyEval.

Import PyEval.

(* ================================================================== *)
(** ** Tool 2: [calculate] *)

(** What a handler hands to the protocol runtime: the string it
    returned, or the exception that left it. *)
Inductive reply :=
| Reply (text : pystr)
| Propagates (e : exn)
| OutsideModel.

(** The body of the [try] block: evaluate, then format the result. *)
Definition try_block (expression : pystr) (st : store) : outcome pystr :=
  bind (py_eval expression st) (fun result st =>
  bind (lift (py_str result) st) (fun s st =>
  Returns (u "Result: " ++ s) st)).

(** [except Exception as e] catches the classes derived from
    [Exception]; any other exception leaves the handler. *)
Definition calculate (expression : pystr) (st : store) : reply * store :=
  match try_block expression st with
  | Returns text st' => (Reply text, st')
  | Raises e st' =>
      if is_Exception (cls e)
      then (Reply (u "Error evaluating expression: " ++ msg e), st')
      else (Propagates e, st')
  | Beyond => (OutsideModel, st)
  end.

(* ================================================================== *)
(** ** Sequences of tool calls *)

Inductive request :=
| GetCurrentTime (now : datetime) (timezone : pystr)
| Calculate (expression : pystr)
| GetUsers
| GetTasks (status : option pystr) (user_id : option Z)
| EchoMessage (message : pystr) (uppercase : bool)
| CountWords (text : pystr).

Section Handlers.

(** The Unicode upper-case table used by [str.upper]. *)
Variable toupper : N -> list N.

Definition handle (r : request) (st : store) : reply * store :=
  match r with
  | GetCurrentTime now timezone => (Reply (get_current_time now timezone), st)
  | Calculate expression => calculate expression st
  | GetUsers => (Reply (get_users st), st)
  | GetTasks status user_id => (Reply (get_tasks st status user_id), st)
  | EchoMessage message uppercase =>
      (Reply (echo_message toupper message uppercase), st)
  | CountWords text => (Reply (count_words text), st)
  end.

(** The replies to a sequence of requests and the store left behind. *)
Fixpoint serve (rs : list request) (st : store) : list reply * store :=
  match rs with
  | [] => ([], st)
  | r :: rs' =>
      let '(a, st') := handle r st in
      let '(answers, st'') := serve rs' st' in
      (a :: answers, st'')
  end.

End Handlers.

(* ================================================================== *)
(** ** Reference notions the properties are stated against *)

Module Spec.

(** Number of maximal runs of non-separator characters: a run starts
    at a non-separator that is first or follows a separator. *)
Fixpoint word_starts (in_word : bool) (s : pystr) : nat :=
  match s with
  | [] => O
  | c :: s' =>
      if isspace c then word_starts false s'
      else ((if in_word then 0 else 1) + word_starts true s')%nat
  end.

Definition word_count (s : pystr) : Z := Z.of_nat (word_starts false s).

(** Number of characters other than the space U+0020. *)
Definition non_space_count (s : pystr) : Z :=
  len s - Z.of_nat (count_occ N.eq_dec s 32%N).

(** The character for a decimal digit. *)
Definition digit_char (d : Z) : N := Z.to_N (48 + d).

(** [h] hundredths written with two decimals: the integer part, a
    point, the tenths digit and the hundredths digit. *)
Definition two_decimals (h : Z) : pystr :=
  of_Z (h / 100) ++ [46%N; digit_char (h / 10 mod 10); digit_char (h mod 10)].

(** A number below 100 written with two digits. *)
Definition two_digits (n : Z) : pystr :=
  [digit_char (n / 10); digit_char (n mod 10)].

(** The five lines of the report, given the three counts and the text
    of the average. *)
Definition report (words chars chars_no_spaces : Z) (average : pystr) : pystr :=
  u "Text Statistics:" ++ nl
  ++ u "- Word count: " ++ of_Z words ++ nl
  ++ u "- Character count (with spaces): " ++ of_Z chars ++ nl
  ++ u "- Character count (without spaces): " ++ of_Z chars_no_spaces ++ nl
  ++ u "- Average word length: " ++ average ++ u " characters".

(** [p] copies of [s], one after the other. *)
Fixpoint copies (p : positive) (s : pystr) : pystr :=
  match p with
  | xH => s
  | xO p => copies p (s ++ s)
  | xI p => s ++ copies p (s ++ s)
  end.

(** Two one-letter words followed by one word of 105553116266495
    letters: three words, 105553116266497 letters. *)
Definition long_text : pystr := u "a a " ++ copies 105553116266495 [97%N].

(** The upper-cased message, character by character. *)
Fixpoint uppercase (s : pystr) : pystr :=
  match s with
  | [] => []
  | c :: s' => Unicode.toupper c ++ uppercase s'
  end.

(** The upper case of an ASCII character: the letters [a] to [z] move
    to [A] to [Z], everything else stays. *)
Definition ascii_upper (c : N) : N :=
  if ((97 <=? c) && (c <=? 122))%N then (c - 32)%N else c.

(** The ranges of the fields of a clock reading. *)
Definition clock_reading (t : datetime) : Prop :=
  1 <= year t <= 9999 /\ 1 <= month t <= 12 /\ 1 <= day t <= 31
  /\ 0 <= hour t <= 23 /\ 0 <= minute t <= 59 /\ 0 <= second t <= 59.

(** The timestamp of a clock reading, field by field. *)
Definition utc_timestamp (t : datetime) : pystr :=
  of_Z (year t) ++ [45%N] ++ two_digits (month t) ++ [45%N]
  ++ two_digits (day t) ++ [32%N] ++ two_digits (hour t) ++ [58%N]
  ++ two_digits (minute t) ++ [58%N] ++ two_digits (second t)
  ++ [32%N; 85%N; 84%N; 67%N].

(** [h / 100] is a two-decimal number nearest to [a / b]. *)
Definition nearest_hundredth (a b h : Z) : Prop :=
  2 * Z.abs (h * b - 100 * a) <= b.

(** The three values of the status enumeration. *)
Definition statuses : list pystr :=
  [u "pending"; u "in_progress"; u "completed"].

(** Tasks that match every filter that is given. *)
Definition matching (ts : list Task.t) (status : option pystr)
           (user_id : option Z) : list Task.t :=
  filter (fun t =>
            match status with
            | Some s => PyStr.eqb (Task.status t) s
            | None => true
            end
            && match user_id with
               | Some i => Task.user_id t =? i
               | None => true
               end) ts.

(** What follows [Current time (<timezone>): ] in a reply. *)
Definition timestamp_of (timezone reply : pystr) : pystr :=
  skipn (List.length (u "Current time (" ++ timezone ++ u "): ")) reply.

Definition is_function_name (x : pystr) : bool :=
  existsb (PyStr.eqb x) [u "abs"; u "round"; u "min"; u "max"].

(** All the values, when every one is there. *)
Fixpoint sequence (l : list (option Z)) : option (list Z) :=
  match l with
  | [] => Some []
  | Some z :: rest =>
      match sequence rest with
      | Some zs => Some (z :: zs)
      | None => None
      end
  | None :: _ => None
  end.

(** Exact value of an expression over integer literals, [+ - *],
    [abs], [round] of one operand and [min]/[max] of two or more;
    [None] outside that class. *)
Fixpoint int_value (e : expr) : option Z :=
  match e with
  | EInt n => Some n
  | EUnary op e =>
      match int_value e with
      | Some z => Some (match op with UPlus => z | UMinus => - z end)
      | None => None
      end
  | EBin op l r =>
      match op, int_value l, int_value r with
      | Add, Some x, Some y => Some (x + y)
      | Sub, Some x, Some y => Some (x - y)
      | Mul, Some x, Some y => Some (x * y)
      | _, _, _ => None
      end
  | ECall (EName f) args =>
      match sequence (List.map int_value args) with
      | Some [z] =>
          if PyStr.eqb f (u "abs") then Some (Z.abs z)
          else if PyStr.eqb f (u "round") then Some z
          else None
      | Some (z :: zs) =>
          if PyStr.eqb f (u "min") then Some (fold_left Z.min zs z)
          else if PyStr.eqb f (u "max") then Some (fold_left Z.max zs z)
          else None
      | _ => None
      end
  | _ => None
  end.


(** The float [f] has the sign of [x / y] and lies within half a unit
    in its last place of it; an infinity stands for a quotient of at
    least [2^1023]. *)
Definition half_ulp_close (x y : Z) (f : float) : Prop :=
  match f with
  | Fin s m e =>
      s = xorb (x <? 0) (y <? 0)
      /\ 2 * Z.abs (m * pow2 e * Z.abs y - Z.abs x * pow2 (- e))
         <= Z.abs y * pow2 e
  | Inf s => s = xorb (x <? 0) (y <? 0) /\ 2 ^ 1023 * Z.abs y <= Z.abs x
  | NaN => False
  end.

(** The diagnostics of the inputs that are rejected as ill-formed. *)
Definition diagnostics : list pystr :=
  List.map u
    [ "invalid syntax (<string>, line 1)";
      "invalid syntax (<string>, line 0)";
      "unmatched ')' (<string>, line 1)";
      "unmatched ']' (<string>, line 1)";
      "closing parenthesis ')' does not match opening parenthesis '[' (<string>, line 1)";
      "closing parenthesis ']' does not match opening parenthesis '(' (<string>, line 1)";
      "leading zeros in decimal integer literals are not permitted; use an 0o prefix for octal integers (<string>, line 1)";
      "unterminated string literal (detected at line 1) (<string>, line 1)"
    ]%string.


Definition is_allowed_name (x : pystr) : bool :=
  existsb (fun kv => PyStr.eqb (fst kv) x) allowed_names.

(** Expressions every operand of which is evaluated: literals, names
    outside the allow-list, [+ - * /], and calls of the four
    functions ([round] with at most one operand). *)
Fixpoint strict (e : expr) : bool :=
  match e with
  | EInt _ => true
  | EName x => negb (is_allowed_name x)
  | EUnary _ e => strict e
  | EBin _ l r => strict l && strict r
  | ECall (EName f) args =>
      is_function_name f
      && (negb (PyStr.eqb f (u "round")) || (List.length args <=? 1)%nat)
      && forallb strict args
  | _ => false
  end.

(** Does a name occur as an operand? *)
Fixpoint mentions_name (e : expr) : bool :=
  match e with
  | EName _ => true
  | EUnary _ e => mentions_name e
  | EBin _ l r => mentions_name l || mentions_name r
  | ECall _ args => existsb mentions_name args
  | _ => false
  end.

(** Is a word being collected? *)
Definition started (cur : pystr) : bool :=
  match cur with
  | [] => false
  | _ => true
  end.

(** The values [--transport] is declared to take. *)
Definition transports : list pystr := [u "stdio"; u "sse"; u "streamable-http"].

(** Shape of every namespace the parser hands out. *)
Definition well_formed (ns : namespace) : Prop :=
  exists t p h,
    ns = [(u "transport", AStr t); (u "port", AInt p); (u "host", AStr h)]
    /\ In t transports.

(** A number came back, or an exception that [except Exception]
    catches; in either case the store is the one given. *)
Definition settled (o : outcome value) (st : store) : Prop :=
  (exists v, o = Returns v st /\ is_number v = true)
  \/ (exists ex, o = Raises ex st /\ is_Exception (cls ex) = true).

Definition settled_pure (p : pure value) : Prop :=
  (exists v, p = Val v /\ is_number v = true)
  \/ (exists ex, p = Err ex /\ is_Exception (cls ex) = true).

Definition is_calculate (r : request) : bool :=
  match r with
  | Calculate _ => true
  | _ => false
  end.

End Spec.

Import Spec.

(* ================================================================== *)
(** ** Further notions used by the properties of the handlers *)

Module Notions.

(** Every character is in the ASCII range. *)
Definition ascii_only (s : pystr) : Prop := Forall (fun c => (c < 128)%N) s.

(** [l] is [m] with some elements left out, the others in order. *)
Inductive sublist {A : Type} : list A -> list A -> Prop :=
| sublist_nil : sublist [] []
| sublist_skip x l m : sublist l m -> sublist l (x :: m)
| sublist_keep x l m : sublist l m -> sublist (x :: l) (x :: m).

(** The string after the optional sign of an integer literal. *)
Definition unsigned_part (body : pystr) : bool * pystr :=
  match body with
  | 45%N :: b => (true, b)
  | 43%N :: b => (false, b)
  | _ => (false, body)
  end.

End Notions.

Import Notions.

(* ================================================================== *)
(** * Properties *)

(** ** Rounding *)

Section Rounding.

Lemma pow2_nonneg k : 0 <= k -> pow2 k = 2 ^ k.
Proof. intros. unfold pow2. now rewrite Z.max_r by lia. Qed.

Lemma pow2_nonpos k : k <= 0 -> pow2 k = 1.
Proof. intros. unfold pow2. now rewrite Z.max_l by lia. Qed.

(** [rne_div n d] is within half a unit of [n / d]. *)
Lemma rne_div_near n d : 0 < d -> 2 * Z.abs (rne_div n d * d - n) <= d.
Proof.
  intros Hd. unfold rne_div.
  pose proof (Z.div_mod n d ltac:(lia)) as E.
  pose proof (Z.mod_pos_bound n d Hd) as B.
  destruct (2 * (n mod d) <? d) eqn:H1; [apply Z.ltb_lt in H1; lia|].
  apply Z.ltb_ge in H1.
  destruct (d <? 2 * (n mod d)) eqn:H2; [apply Z.ltb_lt in H2; lia|].
  apply Z.ltb_ge in H2.
  destruct (Z.even (n / d)); lia.
Qed.

Lemma rne_div_lower n d k : 0 < d -> k * d <= n -> k <= rne_div n d.
Proof.
  intros Hd H. unfold rne_div.
  assert (k <= n / d) by (apply Z.div_le_lower_bound; lia).
  repeat match goal with |- context [if ?c then _ else _] => destruct c end; lia.
Qed.

(** If [m / D] is within half a unit in the last place of [a / b], the
    grid [1 / D] is finer than [1 / (100 b)], and [h] is [100 m / D]
    rounded to an integer, then [h] is also a nearest integer to
    [100 a / b]: rounding twice cannot cross a half-way point, since
    those are multiples of [1 / (200 b)]. *)
Lemma nearest_transfer a b m D h :
  0 < a -> 0 < b -> 0 < D ->
  2 * Z.abs (m * b - a * D) <= b ->
  100 * b < D ->
  2 * Z.abs (h * D - 100 * m) <= D ->
  nearest_hundredth a b h.
Proof.
  intros Ha Hb HD H1 H2 H3. unfold nearest_hundredth.
  destruct (Z_le_gt_dec (2 * Z.abs (h * b - 100 * a)) b) as [|C]; [assumption|exfalso].
  destruct (Z_le_gt_dec (h * b) (100 * a)).
  - assert (200 * a - (2 * h + 1) * b >= 1) by lia.
    assert (200 * a * D - (2 * h + 1) * b * D >= D) by nia.
    assert (200 * m * b >= 200 * a * D - 100 * b) by lia.
    assert (200 * m * b > (2 * h + 1) * b * D) by nia.
    assert (200 * m > (2 * h + 1) * D) by nia.
    lia.
  - assert ((2 * h - 1) * b - 200 * a >= 1) by lia.
    assert ((2 * h - 1) * b * D - 200 * a * D >= D) by nia.
    assert (200 * m * b <= 200 * a * D + 100 * b) by lia.
    assert (200 * m * b < (2 * h - 1) * b * D) by nia.
    assert (200 * m < (2 * h - 1) * D) by nia.
    lia.
Qed.

Lemma floor_log2_ratio_bounds a b :
  0 < b <= a ->
  0 <= floor_log2_ratio a b <= Z.log2 a /\ b * 2 ^ floor_log2_ratio a b <= a.
Proof.
  intros [Hb Hab]. unfold floor_log2_ratio.
  pose proof (Z.log2_le_mono b a Hab) as Hl.
  pose proof (Z.log2_nonneg b) as Hlb.
  pose proof (Z.log2_spec a ltac:(lia)) as [Ha1 Ha2].
  pose proof (Z.log2_spec b Hb) as [Hb1 Hb2].
  set (l := Z.log2 a - Z.log2 b) in *.
  assert (0 <= l) by (subst l; lia).
  rewrite (pow2_nonneg l), (pow2_nonpos (- l)) by lia.
  destruct (b * 2 ^ l <=? a * 1) eqn:T.
  - apply Z.leb_le in T. lia.
  - apply Z.leb_gt in T.
    assert (l <> 0) by (intros ->; change (2 ^ 0) with 1 in T; lia).
    split; [lia|].
    assert (2 ^ Z.log2 a = 2 ^ (l - 1) * 2 ^ Z.succ (Z.log2 b)).
    { rewrite <- Z.pow_add_r by lia. f_equal. subst l. lia. }
    assert (0 < 2 ^ (l - 1)) by (apply Z.pow_pos_nonneg; lia).
    nia.
Qed.

(** The quotient of two counts, computed in binary64 and printed with
    two decimals, is a nearest hundredth of the exact quotient. *)
Lemma truediv_hundredths a b :
  0 < b <= a -> 200 * a < 2 ^ 53 ->
  exists m e, int_truediv a b = Fin false m e
              /\ nearest_hundredth a b (hundredths m e).
Proof.
  intros Hab Hbound.
  pose proof (floor_log2_ratio_bounds a b Hab) as [[Hfl0 Hfl1] Hfl2].
  unfold int_truediv, round64.
  replace (a <? 0) with false by (symmetry; apply Z.ltb_ge; lia).
  replace (b <? 0) with false by (symmetry; apply Z.ltb_ge; lia).
  rewrite !Z.abs_eq by lia. cbn [xorb].
  replace (a =? 0) with false by (symmetry; apply Z.eqb_neq; lia).
  set (fl := floor_log2_ratio a b) in *.
  change (2 ^ 53) with 9007199254740992 in *.
  change (2 ^ 52) with 4503599627370496 in *.
  assert (Hla : Z.log2 a < 46).
  { apply Z.log2_lt_pow2; [lia|]. change (2 ^ 46) with 70368744177664. lia. }
  rewrite Z.max_l by lia.
  set (e := fl - 52).
  rewrite (pow2_nonneg (- e)), (pow2_nonpos e), Z.mul_1_r by (subst e; lia).
  set (D := 2 ^ (- e)).
  assert (HD : 0 < D) by (apply Z.pow_pos_nonneg; subst e; lia).
  assert (HbD : b * 4503599627370496 <= a * D).
  { assert (4503599627370496 = 2 ^ fl * D).
    { change 4503599627370496 with (2 ^ 52). subst D.
      rewrite <- Z.pow_add_r by (subst e; lia). f_equal. subst e. lia. }
    nia. }
  pose proof (rne_div_near (a * D) b ltac:(lia)) as P1.
  pose proof (rne_div_lower (a * D) b 4503599627370496 ltac:(lia) ltac:(lia)) as Hm.
  set (m0 := rne_div (a * D) b) in *.
  destruct (m0 =? 9007199254740992) eqn:Hren.
  - apply Z.eqb_eq in Hren.
    replace (971 <? e + 1) with false by (symmetry; apply Z.ltb_ge; subst e; lia).
    exists 4503599627370496, (e + 1). split; [reflexivity|].
    unfold hundredths.
    rewrite (pow2_nonneg (- (e + 1))), (pow2_nonpos (e + 1)), Z.mul_1_r
      by (subst e; lia).
    set (D' := 2 ^ (- (e + 1))).
    assert (HD' : D = 2 * D').
    { subst D D'. replace (- e) with (1 + - (e + 1)) by lia.
      now rewrite Z.pow_add_r by (subst e; lia). }
    assert (0 < D') by lia.
    pose proof (rne_div_near (100 * 4503599627370496) D' ltac:(lia)) as P3.
    apply (nearest_transfer a b 4503599627370496 D'); try lia.
    assert (100 * a * b < a * D') by nia.
    nia.
  - replace (971 <? e) with false by (symmetry; apply Z.ltb_ge; subst e; lia).
    exists m0, e. split; [reflexivity|].
    unfold hundredths.
    rewrite (pow2_nonneg (- e)), (pow2_nonpos e), Z.mul_1_r by (subst e; lia).
    fold D.
    pose proof (rne_div_near (100 * m0) D HD) as P3.
    apply (nearest_transfer a b m0 D); try lia.
    assert (100 * a * b < a * D) by nia.
    nia.
Qed.

End Rounding.

(** ** Splitting into words *)

Section Words.

Lemma split_from_length cur s :
  List.length (split_from cur s)
  = ((if started cur then 1 else 0) + word_starts (started cur) s)%nat.
Proof.
  revert cur. induction s as [|c s IH]; intros cur; cbn [split_from word_starts].
  - destruct cur; reflexivity.
  - destruct (isspace c).
    + destruct cur; cbn [started List.length]; rewrite IH; reflexivity.
    + rewrite IH. destruct cur; reflexivity.
Qed.

(** [len(text.split())] counts the maximal runs of non-separators. *)
Lemma split_length s : Z.of_nat (List.length (split s)) = word_count s.
Proof. unfold split, word_count. now rewrite split_from_length. Qed.

(** Words are not empty and hold no separator; together they are the
    text with the separators taken out. *)
Lemma split_from_words cur s :
  Forall (fun c => isspace c = false) cur ->
  Forall (fun w => w <> [] /\ Forall (fun c => isspace c = false) w)
         (split_from cur s)
  /\ List.concat (split_from cur s)
     = rev cur ++ filter (fun c => negb (isspace c)) s.
Proof.
  revert cur. induction s as [|c s IH]; intros cur Hcur; cbn [split_from filter].
  - destruct cur as [|x cur].
    + split; [constructor | reflexivity].
    + split.
      * constructor; [|constructor]. split.
        -- intros E. apply (f_equal (@List.length N)) in E.
           rewrite length_rev in E. discriminate.
        -- apply Forall_rev. assumption.
      * cbn [List.concat]. now rewrite !app_nil_r.
  - destruct (isspace c) eqn:Hc; cbn [negb].
    + destruct (IH [] (Forall_nil _)) as [IH1 IH2]. cbn [rev app] in IH2.
      destruct cur as [|x cur].
      * split; [assumption|]. assumption.
      * split.
        -- constructor; [|assumption]. split.
           ++ intros E. apply (f_equal (@List.length N)) in E.
              rewrite length_rev in E. discriminate.
           ++ apply Forall_rev. assumption.
        -- cbn [List.concat]. now rewrite IH2.
    + destruct (IH (c :: cur)) as [IH1 IH2]; [now constructor|].
      split; [assumption|]. rewrite IH2. cbn [rev]. now rewrite <- app_assoc.
Qed.

Lemma space_is_separator c : (c =? 32)%N = true -> isspace c = true.
Proof. intros E. apply N.eqb_eq in E. subst c. reflexivity. Qed.

(** Every word starts with a character that [replace] keeps. *)
Lemma word_starts_le b s :
  (word_starts b s <= List.length (remove_spaces s))%nat.
Proof.
  revert b. induction s as [|c s IH]; intros b; cbn [word_starts remove_spaces filter].
  - lia.
  - destruct (isspace c) eqn:Hc.
    + specialize (IH false). unfold remove_spaces in IH.
      destruct (negb (c =? 32)%N); cbn [List.length]; lia.
    + destruct (c =? 32)%N eqn:E.
      * apply space_is_separator in E. congruence.
      * specialize (IH true). unfold remove_spaces in IH.
        cbn [negb List.length]. destruct b; lia.
Qed.

Lemma word_count_le s : word_count s <= len (remove_spaces s).
Proof. unfold word_count, len. pose proof (word_starts_le false s). lia. Qed.

End Words.

(** ** Strings and digits *)

Section Strings.

Lemma eqb_eq a b : PyStr.eqb a b = true <-> a = b.
Proof.
  unfold PyStr.eqb. destruct (list_eq_dec N.eq_dec a b); split; congruence.
Qed.

Lemma eqb_refl a : PyStr.eqb a a = true.
Proof. now apply eqb_eq. Qed.

Lemma eqb_neq a b : PyStr.eqb a b = false <-> a <> b.
Proof.
  unfold PyStr.eqb. destruct (list_eq_dec N.eq_dec a b); split; congruence.
Qed.

(** A test that holds for each of 0, ..., 99 holds below 100. *)
Lemma below_100 (P : Z -> bool) :
  forallb P (List.map Z.of_nat (seq 0 100)) = true ->
  forall k, 0 <= k < 100 -> P k = true.
Proof.
  intros H k Hk. rewrite forallb_forall in H. apply H.
  rewrite <- (Z2Nat.id k) by lia. apply in_map, in_seq. lia.
Qed.

(** [%02d] of a number below 100 is its two digits. *)
Lemma pad_two_digits k : 0 <= k < 100 -> pad_left 2 (of_Z k) = two_digits k.
Proof.
  intros Hk. apply eqb_eq.
  apply (below_100 (fun k => PyStr.eqb (pad_left 2 (of_Z k)) (two_digits k)));
    [vm_compute; reflexivity | exact Hk].
Qed.

(** The [.2f] digits of a value of [h] hundredths. *)
Lemma fixed2_two_decimals h : 0 <= h -> fixed2 h = two_decimals h.
Proof.
  intros Hh. unfold fixed2, two_decimals.
  rewrite pad_two_digits by (apply Z.mod_pos_bound; lia).
  unfold two_digits.
  assert (E : h mod 100 = h mod 10 + 10 * ((h / 10) mod 10))
    by (exact (Z.rem_mul_r h 10 10 ltac:(lia) ltac:(lia))).
  pose proof (Z.mod_pos_bound h 10 ltac:(lia)) as B1.
  pose proof (Z.mod_pos_bound (h / 10) 10 ltac:(lia)) as B2.
  assert (E1 : h mod 100 / 10 = h / 10 mod 10).
  { rewrite E. symmetry. apply (Z.div_unique _ 10 _ (h mod 10)); lia. }
  assert (E2 : (h mod 100) mod 10 = h mod 10).
  { rewrite E. symmetry. apply (Z.mod_unique _ 10 (h / 10 mod 10)); lia. }
  rewrite E1, E2. reflexivity.
Qed.

End Strings.

(** ** Tool 6: [count_words] *)

Section Report.

Lemma remove_spaces_count s : len (remove_spaces s) = non_space_count s.
Proof.
  unfold non_space_count, len, remove_spaces.
  induction s as [|c s IH]; [reflexivity|].
  cbn [filter count_occ List.length].
  destruct (N.eq_dec c 32) as [->|Hc].
  - cbn [N.eqb Pos.eqb negb List.length]. lia.
  - replace (c =? 32)%N with false by (symmetry; now apply N.eqb_neq).
    cbn [negb List.length].
    destruct (N.eq_dec c 32); [contradiction|]. lia.
Qed.


(** The reply, with the average as the conditional expression gives
    it. *)
Lemma count_words_unfold text :
  count_words text
  = report (word_count text) (len text) (non_space_count text)
           (format_average
              (average_word_length (non_space_count text) (word_count text))).
Proof.
  unfold count_words. cbv zeta.
  rewrite split_length, remove_spaces_count. reflexivity.
Qed.

(** Copies of a text of letters are letters, and as many as expected. *)
Lemma copies_Forall (P : N -> Prop) p : forall s,
  Forall P s -> Forall P (copies p s).
Proof.
  induction p as [p IH|p IH|]; intros s H; cbn [copies].
  - apply Forall_app. split; [exact H|]. apply IH, Forall_app. now split.
  - apply IH, Forall_app. now split.
  - exact H.
Qed.

Lemma copies_len p : forall s, len (copies p s) = Z.pos p * len s.
Proof.
  unfold len.
  induction p as [p IH|p IH|]; intros s; cbn [copies].
  - rewrite length_app, Nat2Z.inj_add, IH, length_app. lia.
  - rewrite IH, length_app. lia.
  - lia.
Qed.

(** A run of the letter [a] is one word with no space in it. *)
Lemma letters_counts l :
  Forall (fun c => c = 97%N) l ->
  word_starts true l = 0%nat /\ remove_spaces l = l.
Proof.
  induction 1 as [|c l Hc Hl [IH1 IH2]]; [split; reflexivity|].
  subst c. cbn [word_starts remove_spaces filter].
  change (isspace 97) with false. change (negb (97 =? 32)%N) with true.
  cbv iota. unfold remove_spaces in IH2. rewrite IH1, IH2. split; reflexivity.
Qed.

Lemma long_text_counts l :
  Forall (fun c => c = 97%N) l -> l <> [] ->
  word_count (u "a a " ++ l) = 3
  /\ len (u "a a " ++ l) = 4 + len l
  /\ non_space_count (u "a a " ++ l) = 2 + len l.
Proof.
  intros Hl Hne. destruct (letters_counts l Hl) as [Hw Hr].
  split; [|split].
  - unfold word_count.
    change (word_starts false (u "a a " ++ l)) with (2 + word_starts false l)%nat.
    destruct l as [|c l]; [congruence|].
    inversion Hl as [|? ? Hc Hl']; subst.
    cbn [word_starts]. change (isspace 97) with false. cbv iota.
    destruct (letters_counts l Hl') as [Hw' _]. rewrite Hw'. reflexivity.
  - unfold len. change (u "a a " ++ l) with (97 :: 32 :: 97 :: 32 :: l)%N.
    cbn [List.length]. lia.
  - rewrite <- remove_spaces_count.
    change (remove_spaces (u "a a " ++ l)) with (97 :: 97 :: remove_spaces l)%N.
    rewrite Hr. unfold len. cbn [List.length]. lia.
Qed.

End Report.

(** With at least one word and fewer than 2^53 / 200 counted
    characters, the average is printed as the two decimals of a nearest
    hundredth, which is at least 1.00. *)
Lemma average_digits text :
  0 < word_count text -> 200 * non_space_count text < 2 ^ 53 ->
  exists h,
    format_average (average_word_length (non_space_count text) (word_count text))
    = two_decimals h
    /\ nearest_hundredth (non_space_count text) (word_count text) h
    /\ 100 <= h.
Proof.
  intros Hpos Hbound.
  pose proof (word_count_le text) as Hle. rewrite remove_spaces_count in Hle.
  destruct (truediv_hundredths (non_space_count text) (word_count text))
    as (m & e & Hdiv & Hnear); [lia | assumption |].
  assert (Hh : 100 <= hundredths m e) by (unfold nearest_hundredth in Hnear; nia).
  exists (hundredths m e). split; [|split; assumption].
  unfold average_word_length.
  replace (0 <? word_count text) with true by (symmetry; now apply Z.ltb_lt).
  cbn [format_average]. rewrite Hdiv. cbn [format_2f app].
  apply fixed2_two_decimals. lia.
Qed.

(** C4, as stated, fails for a very long text: [long_text] has three
    words and 105553116266497 letters; the exact average is
    35184372088832.33..., but the binary64 quotient is
    35184372088832.3359375 and the reply shows 35184372088832.34, which
    is not the quotient rounded to two decimal places. *)
Lemma count_words_misrounds :
  word_count long_text = 3
  /\ len long_text = 105553116266499
  /\ non_space_count long_text = 105553116266497
  /\ count_words long_text
     = u "Text Statistics:" ++ nl
       ++ u "- Word count: 3" ++ nl
       ++ u "- Character count (with spaces): 105553116266499" ++ nl
       ++ u "- Character count (without spaces): 105553116266497" ++ nl
       ++ u "- Average word length: 35184372088832.34 characters"
  /\ ~ nearest_hundredth 105553116266497 3 3518437208883234
  /\ nearest_hundredth 105553116266497 3 3518437208883233.
Proof.
  assert (Hl : Forall (fun c => c = 97%N) (copies 105553116266495 [97%N]))
    by (apply copies_Forall; repeat constructor).
  assert (Hn : len (copies 105553116266495 [97%N]) = 105553116266495)
    by (rewrite copies_len; reflexivity).
  assert (Hne : copies 105553116266495 [97%N] <> []).
  { intros E. rewrite E in Hn. discriminate. }
  destruct (long_text_counts _ Hl Hne) as (Hw & Hc & Hs).
  fold long_text in Hw, Hc, Hs. rewrite Hn in Hc, Hs.
  split; [exact Hw|]. split; [exact Hc|]. split; [exact Hs|]. split; [|split].
  - rewrite count_words_unfold, Hw, Hc, Hs. vm_compute. reflexivity.
  - unfold nearest_hundredth. lia.
  - unfold nearest_hundredth. lia.
Qed.



(** At an exact half-way quotient the binary64 value decides the
    direction: 43 characters in 40 words print as 1.07. *)
Example halfway_quotient : format_2f (int_truediv 43 40) = u "1.07".
Proof. vm_compute. reflexivity. Qed.

(** ** Tools 3 and 4: the sample tables *)

Section Tasks.

Lemma filter_and {A} (f g : A -> bool) l :
  filter g (filter f l) = filter (fun x => f x && g x) l.
Proof.
  induction l as [|x l IH]; [reflexivity|]. cbn [filter].
  destruct (f x); cbn [filter andb]; [destruct (g x)|]; now rewrite IH.
Qed.

Lemma filter_all {A} (l : list A) : filter (fun _ => true && true) l = l.
Proof. induction l as [|x l IH]; [reflexivity|]. cbn [filter]. now rewrite IH. Qed.

(** With a non-empty status and a non-zero user id, exactly the tasks
    matching both are selected; an absent filter passes everything. *)
Lemma select_tasks_given st status user_id :
  status <> Some [] -> user_id <> Some 0 ->
  select_tasks st status user_id = matching (tasks st) status user_id.
Proof.
  intros Hs Hu. unfold select_tasks, matching. cbv zeta.
  assert (Es : truthy_str status = match status with Some _ => true | None => false end).
  { destruct status as [[|c s]|]; try reflexivity. congruence. }
  assert (Eu : truthy_int user_id = match user_id with Some _ => true | None => false end).
  { destruct user_id as [z|]; try reflexivity. cbn.
    destruct (z =? 0) eqn:E; [apply Z.eqb_eq in E; congruence | reflexivity]. }
  rewrite Es, Eu.
  destruct status as [s|], user_id as [i|]; cbn [eq_opt_str eq_opt_int].
  - apply filter_and.
  - apply filter_ext. intros t. now rewrite andb_true_r.
  - apply filter_ext. intros t. reflexivity.
  - symmetry. apply filter_all.
Qed.

Lemma select_tasks_given_witness :
  select_tasks SAMPLE_DATA (Some (u "completed")) (Some 1)
  = matching (tasks SAMPLE_DATA) (Some (u "completed")) (Some 1).
Proof.
  apply select_tasks_given; [intros E; inversion E | intros E; inversion E].
Defined.

End Tasks.

(** C2.  With [status="completed"] and [user_id=0] both filters are
    given, and no task matches both, yet [get_tasks] returns the
    completed task: the user-id filter is skipped because [0] is false.
    Likewise the status [""], which is none of the three status values,
    returns every task, not the empty list. *)
Theorem get_tasks_skips_falsy_filters :
  matching (tasks SAMPLE_DATA) (Some (u "completed")) (Some 0) = []
  /\ select_tasks SAMPLE_DATA (Some (u "completed")) (Some 0)
     = matching (tasks SAMPLE_DATA) (Some (u "completed")) None
  /\ get_tasks SAMPLE_DATA (Some (u "completed")) (Some 0) <> dumps (JList [])
  /\ ~ In [] statuses
  /\ matching (tasks SAMPLE_DATA) (Some []) None = []
  /\ select_tasks SAMPLE_DATA (Some []) None = tasks SAMPLE_DATA.
Proof.
  repeat split; try (vm_compute; reflexivity).
  - vm_compute. discriminate.
  - cbn. intuition discriminate.
Qed.

(** C3.  A user-id filter of zero is indistinguishable from no user-id
    filter, whatever the status argument and the store; on the sample
    data no task has user id 0, so the result is not the (empty) set of
    such tasks. *)
Theorem get_tasks_user_id_zero :
  (forall st status,
      select_tasks st status (Some 0) = select_tasks st status None
      /\ get_tasks st status (Some 0) = get_tasks st status None)
  /\ matching (tasks SAMPLE_DATA) None (Some 0) = []
  /\ select_tasks SAMPLE_DATA None (Some 0) = tasks SAMPLE_DATA
  /\ get_tasks SAMPLE_DATA None (Some 0) <> dumps (JList []).
Proof.
  split; [|repeat split; try (vm_compute; reflexivity); vm_compute; discriminate].
  intros st status.
  assert (E : select_tasks st status (Some 0) = select_tasks st status None)
    by reflexivity.
  split; [exact E|]. unfold get_tasks. now rewrite E.
Qed.

(** C10.  An empty status string is treated as no status filter, for
    every store and user-id argument; on the sample data it returns all
    three tasks, whereas any other value outside the three status values
    returns the empty list. *)
Theorem get_tasks_empty_status :
  (forall st user_id,
      select_tasks st (Some []) user_id = select_tasks st None user_id
      /\ get_tasks st (Some []) user_id = get_tasks st None user_id)
  /\ select_tasks SAMPLE_DATA (Some []) None = tasks SAMPLE_DATA
  /\ List.length (select_tasks SAMPLE_DATA (Some []) None) = 3%nat
  /\ get_tasks SAMPLE_DATA (Some []) None <> dumps (JList [])
  /\ (forall s user_id,
         s <> [] -> ~ In s statuses ->
         select_tasks SAMPLE_DATA (Some s) user_id = []
         /\ get_tasks SAMPLE_DATA (Some s) user_id = dumps (JList [])).
Proof.
  split; [|split; [|split; [|split]]].
  - intros st user_id.
    assert (E : select_tasks st (Some []) user_id = select_tasks st None user_id)
      by reflexivity.
    split; [exact E|]. unfold get_tasks. now rewrite E.
  - reflexivity.
  - reflexivity.
  - vm_compute. discriminate.
  - intros s user_id Hne Hnot.
    assert (E : select_tasks SAMPLE_DATA (Some s) user_id = []).
    { unfold select_tasks. cbv zeta.
      assert (Ht : truthy_str (Some s) = true) by (destruct s; [congruence | reflexivity]).
      rewrite Ht.
      assert (Hf : filter (fun t => eq_opt_str (Task.status t) (Some s))
                          (tasks SAMPLE_DATA) = []).
      { cbn [tasks SAMPLE_DATA filter eq_opt_str Task.status].
        assert (N1 : PyStr.eqb (u "in_progress") s = false).
        { apply eqb_neq. intros <-. apply Hnot. cbn. auto. }
        assert (N2 : PyStr.eqb (u "pending") s = false).
        { apply eqb_neq. intros <-. apply Hnot. cbn. auto. }
        assert (N3 : PyStr.eqb (u "completed") s = false).
        { apply eqb_neq. intros <-. apply Hnot. cbn. auto. }
        now rewrite N1, N2, N3. }
      rewrite Hf. destruct (truthy_int user_id); reflexivity. }
    split; [exact E|]. unfold get_tasks. now rewrite E.
Qed.

Lemma get_tasks_empty_status_witness :
  u "archived" <> [] /\ ~ In (u "archived") statuses
  /\ select_tasks SAMPLE_DATA (Some (u "archived")) None = [].
Proof.
  assert (H1 : u "archived" <> []) by discriminate.
  assert (H2 : ~ In (u "archived") statuses)
    by (cbn; intuition discriminate).
  split; [exact H1|]. split; [exact H2|].
  destruct get_tasks_empty_status as (_ & _ & _ & _ & H).
  exact (proj1 (H (u "archived") None H1 H2)).
Defined.

(** ** Tool 5: [echo_message] *)

Section UpperCase.

(** A test that holds for each of the 128 ASCII characters holds for
    every ASCII character. *)
Lemma below_128 (P : N -> bool) :
  forallb P (List.map N.of_nat (seq 0 128)) = true ->
  forall c, (c < 128)%N -> P c = true.
Proof.
  intros H c Hc. rewrite forallb_forall in H. apply H.
  rewrite <- (N2Nat.id c). apply in_map, in_seq. lia.
Qed.

(** On ASCII the Unicode mapping moves [a]-[z] to [A]-[Z] and nothing
    else. *)
Lemma toupper_ascii c : (c < 128)%N -> Unicode.toupper c = [ascii_upper c].
Proof.
  intros Hc. apply eqb_eq.
  apply (below_128 (fun c => PyStr.eqb (Unicode.toupper c) [ascii_upper c]));
    [vm_compute; reflexivity | exact Hc].
Qed.

Lemma upper_uppercase m : upper Unicode.toupper m = uppercase m.
Proof.
  unfold upper. induction m as [|c m IH]; [reflexivity|].
  cbn [flat_map uppercase]. now rewrite IH.
Qed.

Lemma uppercase_ascii m : ascii_only m -> uppercase m = List.map ascii_upper m.
Proof.
  induction 1 as [|c m Hc Hm IH]; [reflexivity|].
  cbn [uppercase List.map]. now rewrite (toupper_ascii c Hc), IH.
Qed.

End UpperCase.

(** C5.  With the flag off the message comes back unchanged (so echoing
    twice is echoing once).  With the flag on every character is
    replaced by its upper case in the Unicode character database: on an
    ASCII message the letters a-z become A-Z and everything else stays;
    other letters follow the database, one character possibly becoming
    several: the sharp s (U+00DF) becomes SS. *)
Theorem echo_message_spec (m : pystr) :
  echo_message Unicode.toupper m false = m
  /\ echo_message Unicode.toupper (echo_message Unicode.toupper m false) false = m
  /\ echo_message Unicode.toupper m true = uppercase m
  /\ (ascii_only m ->
      echo_message Unicode.toupper m true = List.map ascii_upper m)
  /\ echo_message Unicode.toupper (u "Hello, world 42") true
     = u "HELLO, WORLD 42"
  /\ echo_message Unicode.toupper (u "stra" ++ [223%N] ++ u "e") true
     = u "STRASSE"
  /\ echo_message Unicode.toupper [233; 116; 233]%N true = [201; 84; 201]%N
  /\ echo_message Unicode.toupper [963; 966; 64257]%N true
     = [931; 934; 70; 73]%N.
Proof.
  split; [reflexivity|]. split; [reflexivity|]. split; [apply upper_uppercase|].
  split; [|repeat split; vm_compute; reflexivity].
  intros Hm. cbn [echo_message]. rewrite upper_uppercase.
  now apply uppercase_ascii.
Qed.

Lemma echo_message_spec_witness :
  ascii_only (u "Hello, world 42")
  /\ echo_message Unicode.toupper (u "Hello, world 42") true
     = List.map ascii_upper (u "Hello, world 42").
Proof.
  assert (H : ascii_only (u "Hello, world 42"))
    by (repeat constructor).
  split; [exact H|].
  destruct (echo_message_spec (u "Hello, world 42")) as (_ & _ & _ & Hascii & _).
  exact (Hascii H).
Defined.

(** ** Tool 1: [get_current_time] *)

Lemma skipn_app_exact {A} (l r : list A) : skipn (List.length l) (l ++ r) = r.
Proof. induction l as [|x l IH]; [reflexivity | exact IH]. Qed.

(** What follows the label is the formatted clock reading. *)
Lemma timestamp_of_reply now timezone :
  timestamp_of timezone (get_current_time now timezone) = strftime now.
Proof.
  unfold timestamp_of, get_current_time. cbv zeta.
  rewrite !app_assoc. apply skipn_app_exact.
Qed.

(** The format, field by field. *)
Lemma strftime_fields now : clock_reading now -> strftime now = utc_timestamp now.
Proof.
  intros (Hy & Hmo & Hd & Hh & Hmi & Hs). unfold strftime, utc_timestamp.
  rewrite !pad_two_digits by lia. reflexivity.
Qed.

(** C7.  The reply is the label in parentheses followed by the
    timestamp.  The timestamp is the clock reading in UTC written field
    by field - year, month, day, hour, minute, second, then the
    designation UTC - and it is the same for every timezone argument,
    the default included: the argument only shows up in the label. *)
Theorem get_current_time_ignores_timezone (now : datetime) (timezone : pystr) :
  get_current_time now timezone
  = u "Current time (" ++ timezone ++ u "): "
    ++ timestamp_of timezone (get_current_time now timezone)
  /\ timestamp_of timezone (get_current_time now timezone)
     = timestamp_of default_timezone (get_current_time now default_timezone)
  /\ (clock_reading now ->
      timestamp_of timezone (get_current_time now timezone) = utc_timestamp now)
  /\ get_current_time
       {| year := 2024; month := 3; day := 9; hour := 7; minute := 5; second := 0 |}
       (u "EST")
     = u "Current time (EST): 2024-03-09 07:05:00 UTC"
  /\ get_current_time
       {| year := 999; month := 12; day := 31; hour := 23; minute := 59; second := 59 |}
       default_timezone
     = u "Current time (UTC): 999-12-31 23:59:59 UTC".
Proof.
  split; [now rewrite timestamp_of_reply|].
  split; [now rewrite !timestamp_of_reply|].
  split; [|split; vm_compute; reflexivity].
  intros H. rewrite timestamp_of_reply. now apply strftime_fields.
Qed.

Lemma get_current_time_ignores_timezone_witness :
  clock_reading
    {| year := 2024; month := 3; day := 9; hour := 7; minute := 5; second := 0 |}
  /\ timestamp_of (u "Asia/Tokyo")
       (get_current_time
          {| year := 2024; month := 3; day := 9; hour := 7; minute := 5; second := 0 |}
          (u "Asia/Tokyo"))
     = u "2024-03-09 07:05:00 UTC".
Proof.
  assert (H : clock_reading
                {| year := 2024; month := 3; day := 9;
                   hour := 7; minute := 5; second := 0 |})
    by (unfold clock_reading; cbn; lia).
  split; [exact H|].
  destruct (get_current_time_ignores_timezone
              {| year := 2024; month := 3; day := 9;
                 hour := 7; minute := 5; second := 0 |} (u "Asia/Tokyo"))
    as (_ & _ & Hts & _).
  rewrite (Hts H). vm_compute. reflexivity.
Defined.

(** ** Command line *)

Section CommandLine.

Lemma defaults_well_formed : well_formed (defaults parser).
Proof.
  exists (u "streamable-http"), 3000, (u "0.0.0.0").
  split; [reflexivity | cbn; auto].
Qed.

Lemma existsb_eqb_In x l : existsb (PyStr.eqb x) l = true -> In x l.
Proof.
  intros H. apply existsb_exists in H. destruct H as (y & Hy & E).
  apply eqb_eq in E. now subst.
Qed.

Lemma find_flag_In f arg : find_flag parser f = Some arg -> In arg parser.
Proof. intros H. apply find_some in H. tauto. Qed.

Lemma setattr_well_formed ns arg v x :
  well_formed ns -> In arg parser -> convert arg v = Converted x ->
  well_formed (setattr ns (dest arg) x).
Proof.
  intros (t & p & h & -> & Ht) Harg Hconv.
  destruct Harg as [<-|[<-|[<-|[]]]]; unfold convert in Hconv;
    cbn [type_ choices] in Hconv.
  - destruct (existsb (PyStr.eqb v) [u "stdio"; u "sse"; u "streamable-http"])
      eqn:E; [|discriminate].
    injection Hconv as <-. exists v, p, h. split; [reflexivity|].
    now apply existsb_eqb_In.
  - destruct (int_of_str v) as [z| |]; try discriminate.
    injection Hconv as <-. exists t, z, h. split; [reflexivity | assumption].
  - injection Hconv as <-. exists t, p, v. split; [reflexivity | assumption].
Qed.

Lemma store_value_Parsed arg v ns k ns' :
  store_value arg v ns k = Parsed ns' ->
  exists x, convert arg v = Converted x /\ k (setattr ns (dest arg) x) = Parsed ns'.
Proof.
  unfold store_value. destruct (convert arg v) as [x| |]; try discriminate.
  intros H. now exists x.
Qed.

Lemma parse_loop_well_formed fuel : forall ns extras argv ns',
  well_formed ns ->
  parse_loop fuel parser ns extras argv = Parsed ns' -> well_formed ns'.
Proof.
  induction fuel as [|fuel IH]; intros ns extras argv ns' Hwf H; [discriminate|].
  cbn [parse_loop] in H. destruct argv as [|a rest].
  - destruct extras; [discriminate|]. now injection H as <-.
  - destruct (find_flag parser a) as [arg|] eqn:Hfind.
    + destruct rest as [|v rest']; [discriminate|].
      destruct (takes_as_value parser v); try discriminate.
      apply store_value_Parsed in H. destruct H as (x & Hc & H).
      apply IH in H; [assumption|].
      eapply setattr_well_formed; eauto using find_flag_In.
    + destruct (PyStr.eqb a (u "-h") || PyStr.eqb a (u "--help"))%bool;
        [discriminate|].
      destruct a as [|c [|c' a']].
      * now apply IH in H.
      * destruct (N.eq_dec c 45) as [->|Hc]; [discriminate|].
        assert (E : parse_loop fuel parser ns true rest = Parsed ns').
        { destruct c as [|p]; [exact H|].
          repeat (destruct p as [p|p|]; try exact H). congruence. }
        now apply IH in E.
      * destruct (N.eq_dec c 45) as [->|Hc].
        -- destruct (split_eq (45%N :: c' :: a')) as [[f v]|]; [|discriminate].
           destruct (find_flag parser f) as [arg|] eqn:Hf; [|discriminate].
           apply store_value_Parsed in H. destruct H as (x & Hc & H).
           apply IH in H; [assumption|].
           eapply setattr_well_formed; eauto using find_flag_In.
        -- assert (E : parse_loop fuel parser ns true rest = Parsed ns').
           { destruct c as [|p]; [exact H|].
             repeat (destruct p as [p|p|]; try exact H). congruence. }
           now apply IH in E.
Qed.

(** A line that is parsed has passed the scan of its words. *)
Lemma parse_args_Parsed argv ns :
  parse_args parser argv = Parsed ns ->
  forallb (classified parser) argv = true
  /\ parse_loop (S (List.length argv)) parser (defaults parser) false argv
     = Parsed ns.
Proof.
  unfold parse_args. destruct (forallb (classified parser) argv);
    [now split | discriminate].
Qed.

Lemma run_server_well_formed t p h :
  In t transports ->
  run_server [(u "transport", AStr t); (u "port", AInt p); (u "host", AStr h)]
  = if PyStr.eqb t (u "stdio") then Run (u "stdio") []
    else Run t [(u "port", AInt p); (u "host", AStr h)].
Proof. intros [<-|[<-|[<-|[]]]]; reflexivity. Qed.

End CommandLine.

(** C8.  [--transport] accepts exactly [stdio], [sse] and
    [streamable-http]; with no flags the transport is [streamable-http]
    (the help text says [stdio]), the port the integer 3000 and the host
    0.0.0.0.  Whatever the command line, a parsed port is an integer, and
    [mcp.run] receives port and host for [sse] and [streamable-http] and
    neither of them for [stdio]. *)
Theorem command_line_spec :
  (forall v, (exists ns, parse_args parser [u "--transport"; v] = Parsed ns)
             <-> In v transports)
  /\ parse_args parser []
     = Parsed [(u "transport", AStr (u "streamable-http"));
               (u "port", AInt 3000); (u "host", AStr (u "0.0.0.0"))]
  /\ List.map help (firstn 1 parser) = [u "Transport type to use (default: stdio)"]
  /\ List.map type_ parser = [None; Some TypeInt; Some TypeStr]
  /\ (forall argv ns,
         parse_args parser argv = Parsed ns ->
         exists t p h,
           In t transports
           /\ ns = [(u "transport", AStr t); (u "port", AInt p); (u "host", AStr h)]
           /\ main argv
              = if PyStr.eqb t (u "stdio") then Run (u "stdio") []
                else Run t [(u "port", AInt p); (u "host", AStr h)])
  /\ main [u "--transport"; u "stdio"; u "--port"; u "8080"] = Run (u "stdio") []
  /\ main [u "--transport"; u "sse"; u "--port"; u "8080"]
     = Run (u "sse") [(u "port", AInt 8080); (u "host", AStr (u "0.0.0.0"))]
  /\ main [u "--port"; u "http"] = Exited 2.
Proof.
  split; [|split; [|split; [|split; [|split; [|split; [|split]]]]]];
    [| vm_compute; reflexivity | vm_compute; reflexivity | vm_compute; reflexivity
     | | vm_compute; reflexivity | vm_compute; reflexivity | vm_compute; reflexivity].
  - intros v. split.
    + intros (ns & H). apply parse_args_Parsed in H. destruct H as [_ H].
      cbn [List.length parse_loop] in H.
      replace (find_flag parser (u "--transport")) with (nth_error parser 0) in H
        by (vm_compute; reflexivity).
      cbn [nth_error parser] in H.
      destruct (takes_as_value parser v); try discriminate.
      apply store_value_Parsed in H. destruct H as (x & Hc & _).
      unfold convert in Hc. cbn [type_ choices] in Hc.
      destruct (existsb (PyStr.eqb v) [u "stdio"; u "sse"; u "streamable-http"])
        eqn:E; [|discriminate].
      now apply existsb_eqb_In.
    + intros [<-|[<-|[<-|[]]]]; eexists; vm_compute; reflexivity.
  - intros argv ns H.
    assert (Hwf : well_formed ns).
    { eapply parse_loop_well_formed;
        [apply defaults_well_formed | apply parse_args_Parsed; exact H]. }
    destruct Hwf as (t & p & h & -> & Ht).
    exists t, p, h. split; [assumption|]. split; [reflexivity|].
    unfold main. rewrite H. now apply run_server_well_formed.
Qed.

Lemma command_line_spec_witness :
  parse_args parser [u "--host"; u "127.0.0.1"; u "--port=9000"]
  = Parsed [(u "transport", AStr (u "streamable-http"));
            (u "port", AInt 9000); (u "host", AStr (u "127.0.0.1"))]
  /\ main [u "--host"; u "127.0.0.1"; u "--port=9000"]
     = Run (u "streamable-http")
           [(u "port", AInt 9000); (u "host", AStr (u "127.0.0.1"))].
Proof.
  assert (H : parse_args parser [u "--host"; u "127.0.0.1"; u "--port=9000"]
              = Parsed [(u "transport", AStr (u "streamable-http"));
                        (u "port", AInt 9000); (u "host", AStr (u "127.0.0.1"))])
    by (vm_compute; reflexivity).
  split; [exact H|].
  destruct command_line_spec as (_ & _ & _ & _ & Hmain & _).
  destruct (Hmain _ _ H) as (t & p & h & _ & E & Hrun).
  injection E as <- <- <-. exact Hrun.
Defined.

(** ** The evaluator *)

Section Evaluation.

(** Induction over syntax trees, with the operands of a call. *)
Lemma expr_induction (P : expr -> Prop) :
  (forall n, P (EInt n)) ->
  (forall s, P (EStr s)) ->
  (forall x, P (EName x)) ->
  (forall e a, P e -> P (EAttr e a)) ->
  (forall f args, P f -> Forall P args -> P (ECall f args)) ->
  (forall e i, P e -> P i -> P (ESubscript e i)) ->
  (forall op e, P e -> P (EUnary op e)) ->
  (forall op l r, P l -> P r -> P (EBin op l r)) ->
  (forall op l r, P l -> P r -> P (EBool op l r)) ->
  forall e, P e.
Proof.
  intros HInt HStr HName HAttr HCall HSub HUn HBin HBool.
  fix IH 1. intros [n|s|x|e a|f args|e i|op e|op l r|op l r].
  - apply HInt.
  - apply HStr.
  - apply HName.
  - apply HAttr, IH.
  - apply HCall; [apply IH|].
    induction args as [|a args IHargs]; constructor; [apply IH | exact IHargs].
  - apply HSub; apply IH.
  - apply HUn, IH.
  - apply HBin; apply IH.
  - apply HBool; apply IH.
Qed.

Lemma eval_call f args st :
  eval (ECall f args) st
  = bind (eval f st) (fun fv st =>
    bind (eval_list args st) (fun vs st => call fv vs st)).
Proof. reflexivity. Qed.

End Evaluation.

Section Integers.

Lemma less_int a b : less (VInt a) (VInt b) = (a <? b).
Proof.
  unfold less, exact, flt, num, den.
  change (pow2 0) with 1. change (pow2 (- 0)) with 1.
  f_equal; destruct (a <? 0) eqn:Ea, (b <? 0) eqn:Eb;
    try apply Z.ltb_lt in Ea; try apply Z.ltb_ge in Ea;
    try apply Z.ltb_lt in Eb; try apply Z.ltb_ge in Eb; lia.
Qed.

Lemma fold_pick_min zs : forall z,
  fold_left (pick Min) (List.map VInt zs) (VInt z) = VInt (fold_left Z.min zs z).
Proof.
  induction zs as [|y zs IH]; intros z; [reflexivity|].
  cbn [List.map fold_left pick]. rewrite less_int.
  destruct (y <? z) eqn:E.
  - apply Z.ltb_lt in E. rewrite IH. f_equal. f_equal. lia.
  - apply Z.ltb_ge in E. rewrite IH. f_equal. f_equal. lia.
Qed.

Lemma fold_pick_max zs : forall z,
  fold_left (pick Max) (List.map VInt zs) (VInt z) = VInt (fold_left Z.max zs z).
Proof.
  induction zs as [|y zs IH]; intros z; [reflexivity|].
  cbn [List.map fold_left pick]. rewrite less_int.
  destruct (z <? y) eqn:E.
  - apply Z.ltb_lt in E. rewrite IH. f_equal. f_equal. lia.
  - apply Z.ltb_ge in E. rewrite IH. f_equal. f_equal. lia.
Qed.

Lemma all_numbers_ints zs : forallb is_number (List.map VInt zs) = true.
Proof. induction zs; [reflexivity | assumption]. Qed.

Lemma extremum_min z1 z2 zs :
  extremum Min (List.map VInt (z1 :: z2 :: zs))
  = Val (VInt (fold_left Z.min (z2 :: zs) z1)).
Proof.
  pose proof (all_numbers_ints (z1 :: z2 :: zs)) as Hn.
  pose proof (fold_pick_min (z2 :: zs) z1) as Hf.
  cbn [List.map] in *. unfold extremum. now rewrite Hn, Hf.
Qed.

Lemma extremum_max z1 z2 zs :
  extremum Max (List.map VInt (z1 :: z2 :: zs))
  = Val (VInt (fold_left Z.max (z2 :: zs) z1)).
Proof.
  pose proof (all_numbers_ints (z1 :: z2 :: zs)) as Hn.
  pose proof (fold_pick_max (z2 :: zs) z1) as Hf.
  cbn [List.map] in *. unfold extremum. now rewrite Hn, Hf.
Qed.

Lemma eval_list_ints args st :
  Forall (fun e => forall z st, int_value e = Some z ->
                                eval e st = Returns (VInt z) st) args ->
  forall zs, sequence (List.map int_value args) = Some zs ->
  eval_list args st = Returns (List.map VInt zs) st.
Proof.
  induction 1 as [|a args Ha _ IH]; intros zs Hzs; cbn in Hzs.
  - now injection Hzs as <-.
  - destruct (int_value a) as [z|] eqn:Ez; [|discriminate].
    destruct (sequence (List.map int_value args)) as [zs'|]; [|discriminate].
    injection Hzs as <-. cbn [eval_list List.map].
    rewrite (Ha z st eq_refl). cbn [bind]. now rewrite (IH zs' eq_refl).
Qed.

(** An integer expression evaluates to its exact value and leaves the
    store alone. *)
Lemma eval_int_value e : forall z st,
  int_value e = Some z -> eval e st = Returns (VInt z) st.
Proof.
  induction e as [n|s|x|e a IH|f args IHf IHargs|e i IHe IHi|op e IH
                 |op l r IHl IHr|op l r IHl IHr] using expr_induction;
    intros z st H; cbn [int_value] in H; try discriminate.
  - now injection H as <-.
  - destruct f as [| |fn| | | | | |]; try discriminate.
    destruct (sequence (List.map int_value args)) as [zs|] eqn:Hzs;
      [|discriminate].
    pose proof (eval_list_ints args st IHargs zs Hzs) as Hargs.
    rewrite eval_call.
    destruct zs as [|z1 [|z2 zs]]; [discriminate| |].
    + destruct (PyStr.eqb fn (u "abs")) eqn:E1.
      * apply eqb_eq in E1. subst fn. injection H as <-.
        change (eval (EName (u "abs")) st) with (Returns (VBuiltin Abs) st).
        cbn [bind]. rewrite Hargs. reflexivity.
      * destruct (PyStr.eqb fn (u "round")) eqn:E2; [|discriminate].
        apply eqb_eq in E2. subst fn. injection H as <-.
        change (eval (EName (u "round")) st) with (Returns (VBuiltin Round) st).
        cbn [bind]. rewrite Hargs. reflexivity.
    + destruct (PyStr.eqb fn (u "min")) eqn:E1.
      * apply eqb_eq in E1. subst fn. injection H as <-.
        change (eval (EName (u "min")) st) with (Returns (VBuiltin Min) st).
        cbn [bind]. rewrite Hargs. cbn [bind call].
        now rewrite extremum_min.
      * destruct (PyStr.eqb fn (u "max")) eqn:E2; [|discriminate].
        apply eqb_eq in E2. subst fn. injection H as <-.
        change (eval (EName (u "max")) st) with (Returns (VBuiltin Max) st).
        cbn [bind]. rewrite Hargs. cbn [bind call].
        now rewrite extremum_max.
  - destruct (int_value e) as [y|] eqn:Ey; [|discriminate].
    injection H as <-. cbn [eval]. rewrite (IH y st eq_refl).
    destruct op; reflexivity.
  - destruct (int_value l) as [x|] eqn:El, (int_value r) as [y|] eqn:Er;
      destruct op; try discriminate; injection H as <-;
      cbn [eval]; rewrite (IHl x st eq_refl); cbn [bind];
      rewrite (IHr y st eq_refl); reflexivity.
Qed.

End Integers.

Section Strict.

Lemma lift_settled p st : settled_pure p -> settled (lift p st) st.
Proof.
  intros [(v & -> & Hv)|(ex & -> & Hex)];
    [left; exists v | right; exists ex]; (split; [reflexivity | assumption]).
Qed.

Lemma lookup_absent ns x :
  existsb (fun kv => PyStr.eqb (fst kv) x) ns = false -> lookup ns x = None.
Proof.
  induction ns as [|[k v] ns IH]; [reflexivity|]. cbn [existsb lookup fst].
  destruct (PyStr.eqb k x); [discriminate | exact IH].
Qed.

(** A name outside the allow-list raises [NameError]. *)
Lemma load_name_disallowed x :
  is_allowed_name x = false ->
  load_name x
  = Err {| cls := NameError; msg := u "name '" ++ x ++ u "' is not defined" |}.
Proof. intros H. unfold load_name. now rewrite (lookup_absent _ _ H). Qed.

Lemma unary_number op v :
  is_number v = true -> exists w, unary op v = Val w /\ is_number w = true.
Proof.
  destruct v; try discriminate; intros _; destruct op; eexists; split;
    reflexivity.
Qed.

Lemma float_op_settled op x y : settled_pure (float_op op x y).
Proof.
  destruct op; cbn [float_op];
    try (left; eexists; split; reflexivity).
  destruct (is_zero y); [right | left]; eexists; split; reflexivity.
Qed.

Lemma to_float_number v :
  is_number v = true ->
  (exists f, to_float v = Val f)
  \/ (exists ex, to_float v = Err ex /\ is_Exception (cls ex) = true).
Proof.
  destruct v; try discriminate; intros _; cbn [to_float].
  - destruct (of_int z); [left | right | left]; eexists; try split; reflexivity.
  - left. now eexists.
Qed.

Lemma binary_number op a b :
  is_number a = true -> is_number b = true -> settled_pure (binary op a b).
Proof.
  intros Ha Hb.
  assert (Mixed :
    settled_pure
      (if is_number a && is_number b then
         match to_float a, to_float b with
         | Val x, Val y => float_op op x y
         | Err e, _ => Err e
         | _, Err e => Err e
         | _, _ => Unknown
         end
       else Unknown)).
  { rewrite Ha, Hb. cbn [andb].
    destruct (to_float_number a Ha) as [(x & ->)|(ex & -> & Hex)];
      [|right; exists ex; split; [reflexivity | assumption]].
    destruct (to_float_number b Hb) as [(y & ->)|(ex & -> & Hex)];
      [apply float_op_settled | right; exists ex; split; [reflexivity | assumption]]. }
  destruct a as [|x|x| | | | | | |], b as [|y|y| | | | | | |];
    try discriminate; try exact Mixed.
  destruct op; cbn [binary]; try (left; eexists; split; reflexivity).
  destruct (y =? 0); [right; eexists; split; reflexivity|].
  destruct (int_truediv x y); [left | right | left]; eexists; split;
    reflexivity.
Qed.

Lemma pick_number b v x :
  is_number v = true -> is_number x = true -> is_number (pick b v x) = true.
Proof.
  intros Hv Hx.
  destruct b; cbn [pick]; try (destruct (less x v); assumption).
  destruct (less v x); assumption.
Qed.

Lemma fold_pick_number b vs : forall v,
  is_number v = true -> forallb is_number vs = true ->
  is_number (fold_left (pick b) vs v) = true.
Proof.
  induction vs as [|x vs IH]; intros v Hv Hvs; [assumption|].
  cbn [forallb] in Hvs. apply andb_prop in Hvs. destruct Hvs as [Hx Hvs].
  cbn [fold_left]. apply IH; [now apply pick_number | assumption].
Qed.

Lemma extremum_settled b vs :
  forallb is_number vs = true -> settled_pure (extremum b vs).
Proof.
  intros H. destruct vs as [|v [|w vs]]; cbn [extremum].
  - right. eexists. split; reflexivity.
  - cbn [forallb] in H. rewrite andb_true_r in H. rewrite H.
    right. eexists. split; reflexivity.
  - rewrite H. left. eexists. split; [reflexivity|].
    cbn [forallb] in H. apply andb_prop in H. destruct H as [Hv H].
    now apply fold_pick_number.
Qed.

Lemma call_abs_settled vs :
  forallb is_number vs = true -> settled_pure (call_abs vs).
Proof.
  intros H. destruct vs as [|v [|w vs]].
  - right. eexists. split; reflexivity.
  - destruct v; try discriminate; left; eexists; split; reflexivity.
  - right. destruct v; eexists; split; reflexivity.
Qed.

Lemma call_round_settled vs :
  forallb is_number vs = true -> (List.length vs <= 1)%nat ->
  settled_pure (call_round vs).
Proof.
  intros H Hlen. destruct vs as [|v [|w vs]]; [| |cbn in Hlen; lia].
  - right. eexists. split; reflexivity.
  - destruct v as [|z|[neg m e|neg|]| | | | | | |]; try discriminate;
      try (left; eexists; split; reflexivity);
      right; eexists; split; reflexivity.
Qed.

Lemma function_name_cases fn :
  is_function_name fn = true ->
  fn = u "abs" \/ fn = u "round" \/ fn = u "min" \/ fn = u "max".
Proof.
  intros H. apply existsb_eqb_In in H. cbn in H. intuition.
Qed.

Lemma eval_list_strict args st :
  Forall (fun e => forall st, strict e = true ->
            (exists v, eval e st = Returns v st /\ is_number v = true
                       /\ mentions_name e = false)
            \/ (exists ex, eval e st = Raises ex st
                           /\ is_Exception (cls ex) = true)) args ->
  forallb strict args = true ->
  (exists vs, eval_list args st = Returns vs st
              /\ forallb is_number vs = true
              /\ existsb mentions_name args = false
              /\ List.length vs = List.length args)
  \/ (exists ex, eval_list args st = Raises ex st
                 /\ is_Exception (cls ex) = true).
Proof.
  induction 1 as [|a args Ha _ IH]; intros Hs.
  - left. exists []. repeat split.
  - cbn [forallb] in Hs. apply andb_prop in Hs. destruct Hs as [Hsa Hsr].
    cbn [eval_list].
    destruct (Ha st Hsa) as [(v & -> & Hv & Hm)|(ex & -> & Hex)];
      [|right; exists ex; split; [reflexivity | assumption]].
    cbn [bind].
    destruct (IH Hsr) as [(vs & -> & Hvs & Hms & Hlen)|(ex & -> & Hex)];
      [|right; exists ex; split; [reflexivity | assumption]].
    left. exists (v :: vs). cbn [bind forallb existsb List.length].
    rewrite Hv, Hvs, Hm, Hms, Hlen. repeat split.
Qed.

(** Every operand of a strict expression is evaluated, so it yields a
    number only if no name occurs in it; otherwise it raises an
    exception of class [Exception].  The store is untouched. *)
Lemma eval_strict e : forall st,
  strict e = true ->
  (exists v, eval e st = Returns v st /\ is_number v = true
             /\ mentions_name e = false)
  \/ (exists ex, eval e st = Raises ex st /\ is_Exception (cls ex) = true).
Proof.
  induction e as [n|s|x|e a IH|f args IHf IHargs|e i IHe IHi|op e IH
                 |op l r IHl IHr|op l r IHl IHr] using expr_induction;
    intros st H; cbn [strict] in H; try discriminate.
  - left. exists (VInt n). repeat split.
  - right. apply negb_true_iff in H. cbn [eval].
    rewrite (load_name_disallowed x H). eexists. split; reflexivity.
  - destruct f as [| |fn| | | | | |]; try discriminate.
    apply andb_prop in H. destruct H as [H Hargs].
    apply andb_prop in H. destruct H as [Hfn Harity].
    rewrite eval_call.
    destruct (eval_list_strict args st IHargs Hargs)
      as [(vs & Hvs & Hnum & Hment & Hlen)|(ex & Hex & Hcls)].
    + assert (S : forall b, settled_pure b ->
                (exists v, lift b st = Returns v st /\ is_number v = true
                           /\ mentions_name (ECall (EName fn) args) = false)
                \/ (exists ex, lift b st = Raises ex st
                               /\ is_Exception (cls ex) = true)).
      { intros b [(v & -> & Hv)|(ex & -> & Hex)].
        - left. exists v. cbn [lift mentions_name]. repeat split; assumption.
        - right. exists ex. split; [reflexivity | assumption]. }
      destruct (function_name_cases fn Hfn) as [-> | [-> | [-> | ->]]].
      * change (eval (EName (u "abs")) st) with (Returns (VBuiltin Abs) st).
        cbn [bind]. rewrite Hvs. cbn [bind call].
        now apply S, call_abs_settled.
      * change (eval (EName (u "round")) st) with (Returns (VBuiltin Round) st).
        cbn [bind]. rewrite Hvs. cbn [bind call].
        apply S, call_round_settled; [assumption|].
        rewrite Hlen. cbn in Harity. now apply Nat.leb_le in Harity.
      * change (eval (EName (u "min")) st) with (Returns (VBuiltin Min) st).
        cbn [bind]. rewrite Hvs. cbn [bind call].
        now apply S, extremum_settled.
      * change (eval (EName (u "max")) st) with (Returns (VBuiltin Max) st).
        cbn [bind]. rewrite Hvs. cbn [bind call].
        now apply S, extremum_settled.
    + right. exists ex. split; [|assumption].
      destruct (function_name_cases fn Hfn) as [-> | [-> | [-> | ->]]];
        [change (eval (EName (u "abs")) st) with (Returns (VBuiltin Abs) st)
        |change (eval (EName (u "round")) st) with (Returns (VBuiltin Round) st)
        |change (eval (EName (u "min")) st) with (Returns (VBuiltin Min) st)
        |change (eval (EName (u "max")) st) with (Returns (VBuiltin Max) st)];
        cbn [bind]; rewrite Hex; reflexivity.
  - cbn [eval mentions_name].
    destruct (IH st H) as [(v & -> & Hv & Hm)|(ex & -> & Hex)];
      [|right; exists ex; split; [reflexivity | assumption]].
    cbn [bind]. destruct (unary_number op v Hv) as (w & -> & Hw).
    left. exists w. repeat split; assumption.
  - apply andb_prop in H. destruct H as [Hl Hr]. cbn [eval mentions_name].
    destruct (IHl st Hl) as [(a & -> & Ha & Hma)|(ex & -> & Hex)];
      [|right; exists ex; split; [reflexivity | assumption]].
    cbn [bind].
    destruct (IHr st Hr) as [(b & -> & Hb & Hmb)|(ex & -> & Hex)];
      [|right; exists ex; split; [reflexivity | assumption]].
    cbn [bind]. rewrite Hma, Hmb.
    destruct (binary_number op a b Ha Hb) as [(w & -> & Hw)|(ex & -> & Hex)].
    + left. exists w. repeat split; assumption.
    + right. exists ex. split; [reflexivity | assumption].
Qed.

End Strict.

(** ** Tool 2: [calculate] *)

Section Calculate.


Lemma calculate_int expression e z st :
  parse expression = Ok e -> int_value e = Some z ->
  (digit_count z <= MAX_STR_DIGITS)%nat ->
  calculate expression st = (Reply (u "Result: " ++ of_Z z), st).
Proof.
  intros Hp Hv Hd. unfold calculate, try_block, py_eval.
  rewrite Hp, (eval_int_value e z st Hv). cbn [bind py_str].
  replace (MAX_STR_DIGITS <? digit_count z)%nat with false
    by (symmetry; apply Nat.ltb_ge; exact Hd).
  reflexivity.
Qed.




End Calculate.

(** C1.  The expression [abs.__self__.__import__('sys').exit()] reaches
    the [builtins] module through the allow-listed [abs], imports [sys]
    and calls [sys.exit]; the [SystemExit] it raises is not an
    [Exception], so [except Exception] does not catch it and it leaves
    [calculate] instead of becoming an error string. *)
Theorem calculate_lets_system_exit_through (st : store) :
  calculate (u "abs.__self__.__import__('sys').exit()") st
  = (Propagates {| cls := SystemExit; msg := [] |}, st)
  /\ is_Exception SystemExit = false.
Proof. split; vm_compute; reflexivity. Qed.




(** ** The store across calls *)

Section Frame.

Variable toupper : N -> list N.

(** The five handlers other than [calculate] hand the store back as
    they received it. *)
Lemma handle_frame r st :
  is_calculate r = false -> snd (handle toupper r st) = st.
Proof. destruct r; try reflexivity. discriminate. Qed.

Lemma serve_frame rs : forall st,
  forallb (fun r => negb (is_calculate r)) rs = true ->
  snd (serve toupper rs st) = st.
Proof.
  induction rs as [|r rs IH]; intros st H; [reflexivity|].
  cbn [forallb] in H. apply andb_prop in H. destruct H as [Hr Hrs].
  apply negb_true_iff in Hr. cbn [serve].
  pose proof (handle_frame r st Hr) as Hf.
  destruct (handle toupper r st) as [a st']. cbn [snd] in Hf. subst st'.
  specialize (IH st Hrs).
  destruct (serve toupper rs st) as [answers st'']. exact IH.
Qed.

Lemma serve_frame_witness :
  snd (serve toupper [GetUsers; GetTasks (Some (u "pending")) None;
                      CountWords (u "a bb"); GetUsers] SAMPLE_DATA)
  = SAMPLE_DATA.
Proof. apply serve_frame. reflexivity. Defined.

End Frame.

(** C9.  A call of [calculate] can write to the store: the expression
    below reaches the running module through [abs.__self__] and empties
    the list of users in place, so the next [get_users] returns [[]]
    although it returned the three users before. *)
Theorem calculate_clears_users :
  serve ascii_toupper
        [GetUsers;
         Calculate (u "abs.__self__.__import__('__main__').SAMPLE_DATA['users'].clear()");
         GetUsers]
        SAMPLE_DATA
  = ([Reply (get_users SAMPLE_DATA); Reply (u "Result: None"); Reply (u "[]")],
     {| users := []; tasks := tasks SAMPLE_DATA |})
  /\ get_users SAMPLE_DATA <> u "[]".
Proof.
  split; [vm_compute; reflexivity | vm_compute; discriminate].
Qed.

(** ** Further properties of the handlers *)

Section AsciiOutput.

Lemma ascii_only_app a b : ascii_only a -> ascii_only b -> ascii_only (a ++ b).
Proof. intros Ha Hb. apply Forall_app. now split. Qed.

Lemma ascii_only_flat_map {A} (f : A -> pystr) l :
  (forall x, In x l -> ascii_only (f x)) -> ascii_only (flat_map f l).
Proof.
  induction l as [|x l IH]; intros H; [constructor|]. cbn [flat_map].
  apply ascii_only_app; [apply H; now left | apply IH; intros y Hy; apply H; now right].
Qed.

Lemma ascii_only_repeat c n : (c < 128)%N -> ascii_only (repeat c n).
Proof. intros Hc. induction n; constructor; assumption. Qed.

Lemma ascii_only_uint d : ascii_only (u (NilEmpty.string_of_uint d)).
Proof.
  induction d; cbn [NilEmpty.string_of_uint];
    [constructor | constructor; [reflexivity | exact IHd] ..].
Qed.

Lemma ascii_only_of_Z z : ascii_only (of_Z z).
Proof.
  unfold of_Z. destruct (Z.to_int z) as [d|d]; cbn [NilZero.string_of_int].
  - unfold NilZero.string_of_uint.
    destruct d; try apply ascii_only_uint. constructor; [reflexivity | constructor].
  - constructor; [reflexivity|]. unfold NilZero.string_of_uint.
    destruct d; try apply ascii_only_uint. constructor; [reflexivity | constructor].
Qed.

Lemma hex_digit_ascii n : (n < 16)%N -> (hex_digit n < 128)%N.
Proof. intros H. unfold hex_digit. destruct (n <? 10)%N; lia. Qed.

Lemma ascii_only_backslash_u n : ascii_only (backslash_u n).
Proof.
  unfold backslash_u, hex4.
  repeat (constructor; [first [reflexivity | apply hex_digit_ascii, N.mod_lt; discriminate]|]).
  constructor.
Qed.

Lemma ascii_only_escape_char c : ascii_only (escape_char c).
Proof.
  unfold escape_char.
  repeat match goal with
         | |- ascii_only (if ?b then _ else _) => destruct b eqn:?
         end;
    try (repeat constructor; fail);
    try apply ascii_only_backslash_u;
    try (apply ascii_only_app; apply ascii_only_backslash_u).
  constructor; [|constructor].
  apply andb_prop in Heqb6. destruct Heqb6 as [_ H]. apply N.leb_le in H. lia.
Qed.

Lemma ascii_only_quote s : ascii_only (quote s).
Proof.
  unfold quote. apply ascii_only_app; [repeat constructor|].
  apply ascii_only_app; [|repeat constructor].
  apply ascii_only_flat_map. intros c _. apply ascii_only_escape_char.
Qed.

Lemma ascii_only_newline_indent level : ascii_only (newline_indent level).
Proof.
  unfold newline_indent. apply ascii_only_app; [repeat constructor|].
  now apply ascii_only_repeat.
Qed.

Lemma ascii_only_block o c level items :
  (o < 128)%N -> (c < 128)%N -> Forall ascii_only items ->
  ascii_only (block o c level items).
Proof.
  intros Ho Hc Hitems. unfold block. destruct Hitems as [|first rest Hf Hr].
  - repeat constructor; assumption.
  - apply ascii_only_app; [repeat constructor; assumption|].
    apply ascii_only_app; [apply ascii_only_newline_indent|].
    apply ascii_only_app; [assumption|].
    apply ascii_only_app.
    + apply ascii_only_flat_map. intros it Hit.
      apply ascii_only_app; [repeat constructor|].
      apply ascii_only_app; [apply ascii_only_newline_indent|].
      rewrite Forall_forall in Hr. now apply Hr.
    + apply ascii_only_app; [apply ascii_only_newline_indent|].
      repeat constructor; assumption.
Qed.

Lemma ascii_only_encode : forall v level, ascii_only (encode level v).
Proof.
  fix IH 1. intros [z|s|items|items] level; cbn [encode].
  - apply ascii_only_of_Z.
  - apply ascii_only_quote.
  - apply ascii_only_block; [reflexivity | reflexivity |].
    induction items as [|x items IHitems]; constructor; [apply IH | exact IHitems].
  - apply ascii_only_block; [reflexivity | reflexivity |].
    induction items as [|[k x] items IHitems]; constructor; [|exact IHitems].
    cbn [fst snd]. apply ascii_only_app; [apply ascii_only_quote|].
    apply ascii_only_app; [repeat constructor | apply IH].
Qed.

End AsciiOutput.

(** X1.  Whatever strings the store holds and whatever the filters, the
    replies of [get_users] and [get_tasks] consist of ASCII characters
    only: [json.dumps] escapes everything else. *)
Theorem query_replies_are_ascii (st : store) (status : option pystr)
        (user_id : option Z) :
  ascii_only (get_users st) /\ ascii_only (get_tasks st status user_id).
Proof. split; apply ascii_only_encode. Qed.

(** X2.  When the status given is not empty and the user id given is not
    zero, [get_tasks] returns exactly the stored tasks that match every
    filter given, in stored order; a filter that is absent lets every
    task pass. *)
Theorem get_tasks_given_filters (st : store) (status : option pystr)
        (user_id : option Z) :
  status <> Some [] -> user_id <> Some 0 ->
  get_tasks st status user_id
  = dumps (JList (List.map Task.to_json (matching (tasks st) status user_id))).
Proof.
  intros Hs Hu. unfold get_tasks. now rewrite select_tasks_given.
Qed.

Lemma get_tasks_given_filters_witness :
  get_tasks SAMPLE_DATA (Some (u "in_progress")) (Some 1)
  = dumps (JList (List.map Task.to_json
                           (matching (tasks SAMPLE_DATA) (Some (u "in_progress")) (Some 1)))).
Proof.
  apply get_tasks_given_filters; intros E; inversion E.
Defined.


Section Selection.

Lemma filter_sublist {A} (f : A -> bool) l : sublist (filter f l) l.
Proof.
  induction l as [|x l IH]; [constructor|]. cbn [filter].
  destruct (f x); now constructor.
Qed.

Lemma sublist_refl {A} (l : list A) : sublist l l.
Proof. induction l; now constructor. Qed.

Lemma sublist_trans {A} (a b c : list A) :
  sublist a b -> sublist b c -> sublist a c.
Proof.
  intros Hab Hbc. revert a Hab.
  induction Hbc as [|x l m Hlm IH|x l m Hlm IH]; intros a Hab.
  - assumption.
  - constructor. now apply IH.
  - inversion Hab; subst; constructor; now apply IH.
Qed.

End Selection.

(** X3.  [get_tasks] never invents or reorders: the tasks it serialises
    are stored tasks in stored order, and each of them passes every
    filter that was applied (a filter is applied when its argument is
    neither absent nor empty/zero). *)
Theorem get_tasks_sound (st : store) (status : option pystr) (user_id : option Z) :
  sublist (select_tasks st status user_id) (tasks st)
  /\ forall t, In t (select_tasks st status user_id) ->
               In t (tasks st)
               /\ (truthy_str status = true -> status = Some (Task.status t))
               /\ (truthy_int user_id = true -> user_id = Some (Task.user_id t)).
Proof.
  unfold select_tasks. cbv zeta. split.
  - destruct (truthy_str status), (truthy_int user_id);
      try apply sublist_refl; try apply filter_sublist.
    eapply sublist_trans; apply filter_sublist.
  - intros t Ht.
    destruct (truthy_str status) eqn:Es, (truthy_int user_id) eqn:Eu.
    + apply filter_In in Ht. destruct Ht as [Ht Hu].
      apply filter_In in Ht. destruct Ht as [Ht Hs].
      split; [assumption|]. split; intros _.
      * destruct status as [s|]; [|discriminate]. cbn in Hs.
        apply eqb_eq in Hs. now subst.
      * destruct user_id as [i|]; [|discriminate]. cbn in Hu.
        apply Z.eqb_eq in Hu. now subst.
    + apply filter_In in Ht. destruct Ht as [Ht Hs].
      split; [assumption|]. split; [intros _ | discriminate].
      destruct status as [s|]; [|discriminate]. cbn in Hs.
      apply eqb_eq in Hs. now subst.
    + apply filter_In in Ht. destruct Ht as [Ht Hu].
      split; [assumption|]. split; [discriminate | intros _].
      destruct user_id as [i|]; [|discriminate]. cbn in Hu.
      apply Z.eqb_eq in Hu. now subst.
    + split; [assumption|]. split; discriminate.
Qed.

Lemma get_tasks_sound_witness :
  In {| Task.id := 2; Task.title := u "Review code"; Task.status := u "pending";
        Task.user_id := 2 |}
     (select_tasks SAMPLE_DATA (Some (u "pending")) (Some 2))
  /\ Some 2
     = Some (Task.user_id {| Task.id := 2; Task.title := u "Review code";
                             Task.status := u "pending"; Task.user_id := 2 |}).
Proof.
  assert (H : In {| Task.id := 2; Task.title := u "Review code";
                    Task.status := u "pending"; Task.user_id := 2 |}
                 (select_tasks SAMPLE_DATA (Some (u "pending")) (Some 2)))
    by (vm_compute; auto).
  split; [exact H|].
  destruct (get_tasks_sound SAMPLE_DATA (Some (u "pending")) (Some 2)) as [_ Hs].
  destruct (Hs _ H) as (_ & _ & Hu). apply Hu. reflexivity.
Defined.

Section Stateless.

Variable toupper : N -> list N.


End Stateless.



(** X6.  An arithmetic input (integer literals, [+ - * /], the four
    functions, any names) can neither crash the tool nor touch the
    data: [calculate] returns a string and the store it was given. *)
Theorem calculate_strict_replies (expression : pystr) (e : expr) (st : store) :
  parse expression = Ok e -> strict e = true ->
  exists text, calculate expression st = (Reply text, st).
Proof.
  intros Hp Hs. unfold calculate, try_block, py_eval. rewrite Hp.
  destruct (eval_strict e st Hs) as [(v & -> & Hv & _)|(ex & -> & Hex)].
  - cbn [bind]. destruct v as [|z|f| | | | | | |]; try discriminate; cbn [py_str].
    + destruct (MAX_STR_DIGITS <? digit_count z)%nat; cbn [raise lift bind cls is_Exception msg];
        eexists; reflexivity.
    + eexists. reflexivity.
  - cbn [bind]. rewrite Hex. eexists. reflexivity.
Qed.

Lemma calculate_strict_replies_witness :
  exists text,
    calculate (u "round(7 / 2) + min(3, 0 / 0)") SAMPLE_DATA = (Reply text, SAMPLE_DATA).
Proof.
  refine (calculate_strict_replies _ _ SAMPLE_DATA _ _);
    vm_compute; reflexivity.
Defined.

Section Counts.

Lemma word_starts_none s :
  word_starts false s = 0%nat <-> forallb isspace s = true.
Proof.
  induction s as [|c s IH]; cbn [word_starts forallb]; [tauto|].
  destruct (isspace c); cbn [andb]; [exact IH|].
  split; [lia | discriminate].
Qed.

Lemma remove_spaces_le s : len (remove_spaces s) <= len s.
Proof.
  unfold len, remove_spaces. pose proof (filter_length_le (fun c => negb (c =? 32)%N) s).
  lia.
Qed.

End Counts.

(** X7.  The three counts of [count_words] are ordered: there are never
    more words than characters other than U+0020, nor more of those than
    characters; and the word count is 0 exactly for texts made of
    separators only (the empty text included), even when such a text
    has characters that are not U+0020. *)
Theorem count_words_counts (text : pystr) :
  0 <= Z.of_nat (List.length (split text)) <= len (remove_spaces text)
  /\ len (remove_spaces text) <= len text
  /\ (List.length (split text) = 0%nat <-> forallb isspace text = true)
  /\ List.length (split [9%N]) = 0%nat
  /\ len (remove_spaces [9%N]) = 1.
Proof.
  rewrite split_length. split; [|split; [|split; [|split]]].
  - pose proof (word_count_le text). unfold word_count in *. lia.
  - apply remove_spaces_le.
  - rewrite <- word_starts_none. pose proof (split_length text) as E.
    unfold word_count in E. lia.
  - reflexivity.
  - reflexivity.
Qed.

(** X8.  When the text has a word (and fewer than 2^53 / 200 counted
    characters), the average in the reply of [count_words] is written
    with two decimals and is at least 1.00: every word has a character
    that is counted. *)
Theorem average_at_least_one (text : pystr) :
  0 < word_count text -> 200 * non_space_count text < 2 ^ 53 ->
  exists h,
    count_words text
    = report (word_count text) (len text) (non_space_count text)
             (two_decimals h)
    /\ 100 <= h.
Proof.
  intros Hpos Hbound.
  destruct (average_digits text Hpos Hbound) as (h & E & _ & Hh).
  exists h. split; [|exact Hh]. rewrite count_words_unfold, E. reflexivity.
Qed.

Lemma average_at_least_one_witness :
  exists h,
    count_words (u "to be or not")
    = report 4 12 9 (two_decimals h)
    /\ 100 <= h.
Proof.
  apply (average_at_least_one (u "to be or not")); vm_compute; reflexivity.
Defined.

Section Startup.

Lemma store_value_Exit arg v ns k c :
  store_value arg v ns k = Exit c ->
  c = 2 \/ exists ns', k ns' = Exit c.
Proof.
  unfold store_value. destruct (convert arg v) as [x| |]; try discriminate.
  - intros H. right. now exists (setattr ns (dest arg) x).
  - intros H. injection H as <-. now left.
Qed.

Lemma parse_loop_exit_codes fuel : forall ns extras argv c,
  parse_loop fuel parser ns extras argv = Exit c -> c = 0 \/ c = 2.
Proof.
  induction fuel as [|fuel IH]; intros ns extras argv c H; [discriminate|].
  cbn [parse_loop] in H. destruct argv as [|a rest].
  - destruct extras; [|discriminate]. injection H as <-. now right.
  - destruct (find_flag parser a) as [arg|] eqn:Hfind.
    + destruct rest as [|v rest']; [injection H as <-; now right|].
      destruct (takes_as_value parser v); try discriminate.
      * apply store_value_Exit in H. destruct H as [->|(ns' & H)];
          [now right | now apply IH in H].
      * injection H as <-. now right.
    + destruct (PyStr.eqb a (u "-h") || PyStr.eqb a (u "--help"))%bool;
        [injection H as <-; now left|].
      destruct a as [|c0 [|c1 a']].
      * now apply IH in H.
      * destruct (N.eq_dec c0 45) as [->|Hc]; [discriminate|].
        assert (E : parse_loop fuel parser ns true rest = Exit c).
        { destruct c0 as [|p]; [exact H|].
          repeat (destruct p as [p|p|]; try exact H). congruence. }
        now apply IH in E.
      * destruct (N.eq_dec c0 45) as [->|Hc].
        -- destruct (split_eq (45%N :: c1 :: a')) as [[f v]|]; [|discriminate].
           destruct (find_flag parser f) as [arg|]; [|discriminate].
           apply store_value_Exit in H. destruct H as [->|(ns' & H)];
             [now right | now apply IH in H].
        -- assert (E : parse_loop fuel parser ns true rest = Exit c).
           { destruct c0 as [|p]; [exact H|].
             repeat (destruct p as [p|p|]; try exact H). congruence. }
           now apply IH in E.
Qed.

End Startup.

(** X9.  The [if]/[elif] chain of the entry point has no [else], but it
    never falls through: whatever the command line, either [mcp.run] is
    called with one of the three transports, or the process exits with
    status 0 (help) or 2 (usage error) before any server is started. *)
Theorem main_outcomes (argv : list pystr) :
  match main argv with
  | Run t kwargs => In t transports
  | NoRun => False
  | Exited code => code = 0 \/ code = 2
  | UnknownStartup => True
  end.
Proof.
  unfold main. destruct (parse_args parser argv) as [ns|c|] eqn:H; [| |exact I].
  - assert (Hwf : well_formed ns).
    { eapply parse_loop_well_formed;
        [apply defaults_well_formed | apply parse_args_Parsed; exact H]. }
    destruct Hwf as (t & p & h & -> & Ht).
    rewrite (run_server_well_formed t p h Ht).
    destruct (PyStr.eqb t (u "stdio")); [cbn; auto | assumption].
  - unfold parse_args in H.
    destruct (forallb (classified parser) argv); [|discriminate].
    eapply parse_loop_exit_codes. exact H.
Qed.

Section Ports.

Lemma digits_uint d : Forall (fun c => is_digit c = true) (u (NilEmpty.string_of_uint d)).
Proof.
  induction d; cbn [NilEmpty.string_of_uint];
    [constructor | constructor; [reflexivity | exact IHd] ..].
Qed.

Lemma length_uint d :
  List.length (u (NilEmpty.string_of_uint d)) = Decimal.nb_digits d.
Proof.
  induction d; cbn [NilEmpty.string_of_uint Decimal.nb_digits];
    [reflexivity | cbn [u list_ascii_of_string List.map List.length] in *;
                   unfold u in IHd; now rewrite IHd ..].
Qed.

Lemma digits_value_step c acc count after s :
  is_digit c = true ->
  digits_value acc count after (c :: s)
  = digits_value (10 * acc + (Z.of_N c - 48)) (S count) true s.
Proof. intros H. cbn [digits_value]. now rewrite H. Qed.

(** Reading the digits of [d] after the digits that gave [acc]. *)
Lemma digits_value_acc d : forall acc count,
  digits_value (Z.pos acc) count true (u (NilEmpty.string_of_uint d))
  = Some (Z.pos (Pos.of_uint_acc d acc), (count + Decimal.nb_digits d)%nat).
Proof.
  induction d; intros acc count;
    cbn [NilEmpty.string_of_uint Decimal.nb_digits Pos.of_uint_acc];
    [cbn; do 2 f_equal; lia | ..];
    change (u (String ?c ?s)) with (N_of_ascii c :: u s);
    rewrite digits_value_step by reflexivity;
    match goal with
    | |- digits_value (10 * _ + ?k) _ _ _ = Some (Z.pos (Pos.of_uint_acc _ ?a), _) =>
        let k' := eval vm_compute in k in
        replace (10 * Z.pos acc + k) with (Z.pos a)
          by (change k with k'; lia)
    end;
    rewrite IHd; do 2 f_equal; lia.
Qed.

Lemma digits_value_uint d : forall count after,
  d <> Decimal.Nil ->
  digits_value 0 count after (u (NilEmpty.string_of_uint d))
  = Some (Z.of_N (Pos.of_uint d), (count + Decimal.nb_digits d)%nat).
Proof.
  induction d; intros count after Hd; [congruence | ..];
    cbn [NilEmpty.string_of_uint Decimal.nb_digits Pos.of_uint];
    change (u (String ?c ?s)) with (N_of_ascii c :: u s);
    rewrite digits_value_step by reflexivity;
    match goal with
    | |- digits_value (10 * 0 + ?k) _ _ _ = _ =>
        let k' := eval vm_compute in (10 * 0 + k) in
        change (10 * 0 + k) with k'
    end;
    try (rewrite digits_value_acc; do 2 f_equal; lia).
  destruct d; [cbn; do 2 f_equal; lia | rewrite IHd by discriminate; do 2 f_equal; lia ..].
Qed.

Lemma lstrip_digits s :
  Forall (fun c => is_digit c = true) s -> lstrip s = s.
Proof.
  intros [|c rest Hc _]; [reflexivity|]. cbn [lstrip].
  replace (is_c_space c) with false; [reflexivity|].
  unfold is_digit, is_c_space in *. apply andb_prop in Hc. destruct Hc as [H1 H2].
  apply N.leb_le in H1. apply N.leb_le in H2.
  symmetry. apply orb_false_iff. split.
  - apply andb_false_iff. right. apply N.leb_gt. lia.
  - apply N.eqb_neq. lia.
Qed.

Lemma strip_digits s :
  Forall (fun c => is_digit c = true) s -> strip s = s.
Proof.
  intros H. unfold strip. rewrite (lstrip_digits s H).
  rewrite lstrip_digits by now apply Forall_rev. apply rev_involutive.
Qed.

Lemma unsigned_digits c s :
  is_digit c = true -> unsigned_part (c :: s) = (false, c :: s).
Proof.
  intros H. unfold unsigned_part.
  destruct c as [|p]; [reflexivity|].
  repeat (destruct p as [p|p|]; try reflexivity); discriminate.
Qed.

Lemma takes_digits c s :
  is_digit c = true -> takes_as_value parser (c :: s) = Converted tt.
Proof.
  intros H. unfold takes_as_value.
  destruct c as [|p]; [reflexivity|].
  repeat (destruct p as [p|p|]; try reflexivity); discriminate.
Qed.

Lemma digits_ascii s :
  Forall (fun c => is_digit c = true) s -> forallb (fun c => (c <? 128)%N) s = true.
Proof.
  intros H. apply forallb_forall. intros c Hc. rewrite Forall_forall in H.
  specialize (H c Hc). unfold is_digit in H. apply andb_prop in H.
  destruct H as [_ H]. apply N.leb_le in H. apply N.ltb_lt. lia.
Qed.

(** The decimal form of a non-negative integer, read by [int]. *)
Lemma int_of_str_of_Z n :
  0 <= n -> (List.length (of_Z n) <= MAX_STR_DIGITS)%nat ->
  int_of_str (of_Z n) = Converted n
  /\ exists c s, of_Z n = c :: s /\ is_digit c = true.
Proof.
  intros Hn Hlen. destruct n as [|p|p]; [split; [reflexivity|]| |lia].
  { exists 48%N, []. split; reflexivity. }
  unfold of_Z in *. cbn [Z.to_int NilZero.string_of_int] in *.
  pose proof (DecimalPos.Unsigned.to_uint_nonnil p) as Hnil.
  pose proof (DecimalPos.Unsigned.of_to p) as Hval.
  unfold NilZero.string_of_uint in *.
  set (d := Pos.to_uint p) in *.
  assert (E : u (match d with
                 | Decimal.Nil => "0"%string
                 | _ => NilEmpty.string_of_uint d
                 end) = u (NilEmpty.string_of_uint d))
    by (destruct d; [congruence | reflexivity ..]).
  rewrite E in *. clear E.
  pose proof (digits_uint d) as Hdig.
  assert (Hhead : exists c s, u (NilEmpty.string_of_uint d) = c :: s
                              /\ is_digit c = true).
  { destruct (u (NilEmpty.string_of_uint d)) as [|c s] eqn:E.
    - apply (f_equal (@List.length N)) in E. rewrite length_uint in E.
      destruct d; [congruence | discriminate ..].
    - exists c, s. split; [reflexivity|]. now inversion Hdig. }
  split; [|exact Hhead].
  unfold int_of_str. rewrite (digits_ascii _ Hdig), (strip_digits _ Hdig).
  destruct Hhead as (c & s & E & Hc).
  change (match u (NilEmpty.string_of_uint d) with
          | 45%N :: b => (true, b)
          | 43%N :: b => (false, b)
          | _ => (false, u (NilEmpty.string_of_uint d))
          end) with (unsigned_part (u (NilEmpty.string_of_uint d))).
  rewrite E, (unsigned_digits c s Hc), <- E.
  rewrite (digits_value_uint d 0 false Hnil), Hval.
  rewrite length_uint in Hlen. cbn [Nat.add].
  replace (MAX_STR_DIGITS <? Decimal.nb_digits d)%nat with false
    by (symmetry; apply Nat.ltb_ge; exact Hlen).
  reflexivity.
Qed.

(** A word that can be taken as a value passes the scan. *)
Lemma takes_classified v :
  takes_as_value parser v = Converted tt -> classified parser v = true.
Proof.
  intros H. destruct v as [|c rest]; [reflexivity|].
  destruct (N.eq_dec c 45) as [->|Hc].
  - destruct rest as [|d rest]; [reflexivity|].
    cbn [takes_as_value classified] in *.
    destruct (find_flag parser (45%N :: d :: rest)); [reflexivity|].
    destruct (forallb is_digit (d :: rest)); [|discriminate].
    now rewrite orb_true_r.
  - destruct c as [|p]; [reflexivity|].
    repeat (destruct p as [p|p|]; try reflexivity). congruence.
Qed.

(** Any word that [int] accepts after [--port] becomes the port. *)
Lemma main_port v n :
  takes_as_value parser v = Converted tt -> int_of_str v = Converted n ->
  main [u "--port"; v]
  = Run (u "streamable-http") [(u "port", AInt n); (u "host", AStr (u "0.0.0.0"))].
Proof.
  intros Hv Hn. unfold main, parse_args. cbn [forallb].
  rewrite (takes_classified v Hv).
  replace (classified parser (u "--port")) with true by (vm_compute; reflexivity).
  cbn [andb List.length parse_loop].
  replace (find_flag parser (u "--port")) with (nth_error parser 1)
    by (vm_compute; reflexivity).
  cbn [nth_error parser]. rewrite Hv. unfold store_value, convert.
  cbn [type_ choices]. rewrite Hn. reflexivity.
Qed.

End Ports.

(** X10.  A non-negative port number written in decimal after [--port]
    is read back as that number and handed to [mcp.run] with the default
    transport and host. *)
Theorem port_round_trip (n : Z) :
  0 <= n -> (List.length (of_Z n) <= MAX_STR_DIGITS)%nat ->
  main [u "--port"; of_Z n]
  = Run (u "streamable-http") [(u "port", AInt n); (u "host", AStr (u "0.0.0.0"))].
Proof.
  intros Hn Hlen.
  destruct (int_of_str_of_Z n Hn Hlen) as (Hint & c & s & E & Hc).
  apply main_port; [|exact Hint]. rewrite E. now apply takes_digits.
Qed.

Lemma port_round_trip_witness :
  main [u "--port"; of_Z 8080]
  = Run (u "streamable-http") [(u "port", AInt 8080); (u "host", AStr (u "0.0.0.0"))].
Proof. apply port_round_trip; [lia | vm_compute; lia]. Defined.

Section Composition.

(** More fuel than words is always enough. *)
Lemma parse_loop_fuel : forall fuel1 fuel2 ns extras argv,
  (List.length argv < fuel1)%nat -> (List.length argv < fuel2)%nat ->
  parse_loop fuel1 parser ns extras argv = parse_loop fuel2 parser ns extras argv.
Proof.
  induction fuel1 as [|fuel1 IH]; intros fuel2 ns extras argv H1 H2; [lia|].
  destruct fuel2 as [|fuel2]; [lia|]. cbn [parse_loop].
  destruct argv as [|a rest]; [reflexivity|]. cbn [List.length] in *.
  destruct (find_flag parser a) as [arg|].
  - destruct rest as [|v rest']; [reflexivity|]. cbn [List.length] in *.
    destruct (takes_as_value parser v); try reflexivity.
    unfold store_value. destruct (convert arg v); try reflexivity.
    apply IH; lia.
  - destruct (PyStr.eqb a (u "-h") || PyStr.eqb a (u "--help"))%bool;
      [reflexivity|].
    assert (Hrest : forall ns' e,
               parse_loop fuel1 parser ns' e rest = parse_loop fuel2 parser ns' e rest)
      by (intros; apply IH; lia).
    destruct a as [|c0 [|c1 a']].
    + apply Hrest.
    + destruct (N.eq_dec c0 45) as [->|Hc]; [reflexivity|].
      destruct c0 as [|p]; [apply Hrest|].
      repeat (destruct p as [p|p|]; try apply Hrest). congruence.
    + destruct (N.eq_dec c0 45) as [->|Hc].
      * destruct (split_eq (45%N :: c1 :: a')) as [[f v]|]; [|reflexivity].
        destruct (find_flag parser f) as [arg|]; [|reflexivity].
        unfold store_value. destruct (convert arg v); try reflexivity.
        apply Hrest.
      * destruct c0 as [|p]; [apply Hrest|].
        repeat (destruct p as [p|p|]; try apply Hrest). congruence.
Qed.

(** Reading a command line that continues a complete one continues
    from the namespace of the first part. *)
Lemma parse_loop_app : forall fuel ns extras a ns' b k,
  parse_loop fuel parser ns extras a = Parsed ns' ->
  (List.length b < k)%nat ->
  parse_loop (fuel + k) parser ns extras (a ++ b) = parse_loop k parser ns' false b.
Proof.
  induction fuel as [|fuel IH]; intros ns extras a ns' b k H Hk; [discriminate|].
  cbn [parse_loop] in H. destruct a as [|x rest].
  - destruct extras; [discriminate|]. injection H as <-.
    cbn [app]. apply parse_loop_fuel; lia.
  - cbn [Nat.add app parse_loop].
    destruct (find_flag parser x) as [arg|].
    + destruct rest as [|v rest']; [discriminate|]. cbn [app].
      destruct (takes_as_value parser v); try discriminate.
      unfold store_value in *. destruct (convert arg v); try discriminate.
      now apply IH.
    + destruct (PyStr.eqb x (u "-h") || PyStr.eqb x (u "--help"))%bool;
        [discriminate|].
      destruct x as [|c0 [|c1 x']].
      * now apply IH.
      * destruct (N.eq_dec c0 45) as [->|Hc]; [discriminate|].
        assert (E : parse_loop fuel parser ns true rest = Parsed ns').
        { destruct c0 as [|p]; [exact H|].
          repeat (destruct p as [p|p|]; try exact H). congruence. }
        rewrite <- (IH _ _ _ _ b k E Hk).
        destruct c0 as [|p]; [reflexivity|].
        repeat (destruct p as [p|p|]; try reflexivity). congruence.
      * destruct (N.eq_dec c0 45) as [->|Hc].
        -- destruct (split_eq (45%N :: c1 :: x')) as [[f v]|]; [|discriminate].
           destruct (find_flag parser f) as [arg|]; [|discriminate].
           unfold store_value in *. destruct (convert arg v); try discriminate.
           now apply IH.
        -- assert (E : parse_loop fuel parser ns true rest = Parsed ns').
           { destruct c0 as [|p]; [exact H|].
             repeat (destruct p as [p|p|]; try exact H). congruence. }
           rewrite <- (IH _ _ _ _ b k E Hk).
           destruct c0 as [|p]; [reflexivity|].
           repeat (destruct p as [p|p|]; try reflexivity). congruence.
Qed.

End Composition.

(** X11.  Options are read left to right and the last one wins: a
    complete command line followed by [--port n] parses to the same
    settings with the port replaced by [n], whatever port was given
    before. *)
Theorem later_port_overrides (argv : list pystr) (ns : namespace) (n : Z) :
  parse_args parser argv = Parsed ns ->
  0 <= n -> (List.length (of_Z n) <= MAX_STR_DIGITS)%nat ->
  parse_args parser (argv ++ [u "--port"; of_Z n])
  = Parsed (setattr ns (u "port") (AInt n)).
Proof.
  intros H Hn Hlen. apply parse_args_Parsed in H. destruct H as [Hall H].
  destruct (int_of_str_of_Z n Hn Hlen) as (Hint & c & s & E & Hc).
  unfold parse_args. rewrite forallb_app, Hall. cbn [forallb].
  replace (classified parser (u "--port")) with true by (vm_compute; reflexivity).
  replace (classified parser (of_Z n)) with true
    by (symmetry; apply takes_classified; rewrite E; now apply takes_digits).
  cbn [andb].
  rewrite (parse_loop_fuel _ (S (List.length argv) + 3))
    by (rewrite length_app; cbn [List.length]; lia).
  rewrite (parse_loop_app _ _ _ _ ns _ 3%nat H) by (cbn; lia).
  cbn [parse_loop].
  replace (find_flag parser (u "--port")) with (nth_error parser 1)
    by (vm_compute; reflexivity).
  cbn [nth_error parser]. rewrite E, (takes_digits c s Hc), <- E.
  unfold store_value, convert. cbn [type_ choices]. rewrite Hint. reflexivity.
Qed.

Lemma later_port_overrides_witness :
  parse_args parser [u "--port"; u "1"; u "--host=h"; u "--port"; of_Z 2]
  = Parsed [(u "transport", AStr (u "streamable-http"));
            (u "port", AInt 2); (u "host", AStr (u "h"))].
Proof.
  refine (eq_trans
            (later_port_overrides [u "--port"; u "1"; u "--host=h"] _ 2 _ _ _) _);
    [vm_compute; reflexivity | lia | vm_compute; lia | vm_compute; reflexivity].
Defined.

Section Literals.

Lemma digit_not_space c : is_digit c = true -> (c =? 32)%N = false.
Proof.
  unfold is_digit. intros H. apply andb_prop in H. destruct H as [H _].
  apply N.leb_le in H. apply N.eqb_neq. lia.
Qed.

Lemma lex_number s : forall acc,
  Forall (fun c => is_digit c = true) s ->
  lex (MNumber acc) [] s = end_number (rev acc ++ s) (Tokens []).
Proof.
  induction s as [|c s IH]; intros acc H.
  - cbn [lex]. now rewrite app_nil_r.
  - inversion H as [|? ? Hc Hs]; subst. cbn [lex]. rewrite Hc.
    rewrite (IH (c :: acc) Hs). cbn [rev]. now rewrite <- app_assoc.
Qed.

Lemma tokenize_digits c s :
  Forall (fun c => is_digit c = true) (c :: s) ->
  tokenize (c :: s) = end_number (c :: s) (Tokens []).
Proof.
  intros H. inversion H as [|? ? Hc Hs]; subst.
  unfold tokenize. cbn [lex]. rewrite (digit_not_space c Hc), Hc.
  now rewrite (lex_number s [c] Hs).
Qed.

Lemma digits_value_fold ds : forall acc count,
  Forall (fun c => is_digit c = true) ds ->
  digits_value acc count true ds
  = Some (fold_left (fun a c => 10 * a + (Z.of_N c - 48)) ds acc,
          (count + List.length ds)%nat).
Proof.
  induction ds as [|c ds IH]; intros acc count H.
  - cbn. do 2 f_equal. lia.
  - inversion H as [|? ? Hc Hs]; subst.
    rewrite digits_value_step by exact Hc. rewrite (IH _ _ Hs).
    cbn [fold_left List.length]. do 2 f_equal. lia.
Qed.

Lemma end_number_plain c s rest :
  c <> 48%N -> (List.length (c :: s) <= MAX_STR_DIGITS)%nat ->
  end_number (c :: s) rest = with_token (TInt (digits_to_Z (c :: s))) rest.
Proof.
  intros Hc Hlen. unfold end_number.
  replace (MAX_STR_DIGITS <? List.length (c :: s))%nat with false
    by (symmetry; apply Nat.ltb_ge; exact Hlen).
  destruct c as [|p]; [reflexivity|].
  repeat (destruct p as [p|p|]; try reflexivity). congruence.
Qed.

(** The decimal form of a positive number does not start with 0. *)
Lemma to_uint_head p d : Pos.to_uint p <> Decimal.D0 d.
Proof.
  pose proof (DecimalPos.Unsigned.to_of (Pos.to_uint p)) as E.
  rewrite DecimalPos.Unsigned.of_to in E. cbn [N.to_uint] in E.
  pose proof (DecimalPos.Unsigned.to_uint_nonzero p) as Hz.
  assert (Hnz : Decimal.nzhead (Pos.to_uint p) <> Decimal.Nil).
  { intros Hnil. apply Hz. rewrite E. now apply DecimalFacts.unorm_0. }
  rewrite (DecimalFacts.unorm_nzhead _ Hnz) in E. rewrite E.
  apply DecimalFacts.nzhead_nonzero.
Qed.

Lemma parse_of_Z n :
  0 <= n -> (List.length (of_Z n) <= MAX_STR_DIGITS)%nat ->
  parse (of_Z n) = Ok (EInt n).
Proof.
  intros Hn Hlen. destruct n as [|p|p]; [reflexivity| |lia].
  unfold of_Z in *. cbn [Z.to_int NilZero.string_of_int] in *.
  pose proof (DecimalPos.Unsigned.to_uint_nonnil p) as Hnil.
  pose proof (DecimalPos.Unsigned.of_to p) as Hval.
  pose proof (to_uint_head p) as Hhead.
  unfold NilZero.string_of_uint in *.
  set (d := Pos.to_uint p) in *.
  assert (E : u (match d with
                 | Decimal.Nil => "0"%string
                 | _ => NilEmpty.string_of_uint d
                 end) = u (NilEmpty.string_of_uint d))
    by (destruct d; [congruence | reflexivity ..]).
  rewrite E in *. clear E.
  pose proof (digits_uint d) as Hdig.
  assert (Hv : digits_to_Z (u (NilEmpty.string_of_uint d)) = Z.pos p).
  { pose proof (digits_value_uint d 0 true Hnil) as Hv.
    rewrite (digits_value_fold _ 0 0%nat Hdig), Hval in Hv.
    change (Z.of_N (N.pos p)) with (Z.pos p) in Hv.
    unfold digits_to_Z. congruence. }
  assert (Hne : exists c s, u (NilEmpty.string_of_uint d) = c :: s /\ c <> 48%N).
  { destruct d; [congruence | exfalso; eapply Hhead; reflexivity | ..];
      cbn [NilEmpty.string_of_uint];
      change (u (String ?c ?s)) with (N_of_ascii c :: u s);
      eexists; eexists; (split; [reflexivity | discriminate]). }
  destruct Hne as (c & s & E & Hc). unfold parse. rewrite E in *.
  rewrite (tokenize_digits c s Hdig), (end_number_plain c s _ Hc Hlen).
  rewrite Hv. reflexivity.
Qed.

End Literals.

(** X12.  A non-negative integer written in decimal is a valid
    expression and evaluates to itself: [calculate] answers
    [Result: ] followed by the same digits, and leaves the store. *)
Theorem calculate_literal (n : Z) (st : store) :
  0 <= n -> (List.length (of_Z n) <= MAX_STR_DIGITS)%nat ->
  calculate (of_Z n) st = (Reply (u "Result: " ++ of_Z n), st).
Proof.
  intros Hn Hlen. apply (calculate_int (of_Z n) (EInt n) n st).
  - now apply parse_of_Z.
  - reflexivity.
  - unfold digit_count. now rewrite Z.abs_eq by lia.
Qed.

Lemma calculate_literal_witness :
  calculate (of_Z 1234567890123456789012345) SAMPLE_DATA
  = (Reply (u "Result: " ++ of_Z 1234567890123456789012345), SAMPLE_DATA).
Proof. apply calculate_literal; [lia | vm_compute; lia]. Defined.
